(** * Bond pricer engine (engine/bond_engine.py): model and properties

    The engine computes on Python floats (binary64).  In the main model
    a float is an exact rational ([Q]): every sum, product, quotient,
    [abs], [floor] and comparison of the source is the rational one, and
    the tolerances [1e-12] and [1e-10] are the rationals of that value.
    A comparison of two floats is exact; the arithmetic that produces
    them is rounded.  Where rounding could change what a statement says,
    the statement is written so that it holds of the floats as well:
    - a returned number is given as the expression that the source
      evaluates, operation by operation, and not as a simplification of
      it: in the source its value is that expression rounded at each
      operation;
    - a hypothesis that decides a branch of the source through computed
      numbers (the number of full periods, a divisor that may be 0)
      keeps a distance ([margin], [tiny]) from the branch point that the
      rounding of the few operations involved cannot bridge.
    Module [B64] holds the curve methods and the schedule on binary64
    floats themselves and is evaluated bit for bit where rounding changes
    what is observed.

    The power [x ** y] of [df] has no rational counterpart and is a
    parameter of the pricing functions; it gives a float or overflows.

    Python exceptions are values of [exn] and a function that can raise
    returns a [result].  Division by zero raises on Python floats
    ([pydiv]); on the numpy scalar that a pandas [sum] returns it gives
    an infinity or the not-a-number instead ([npdiv], [pyfloat]).

    A pandas table is the list of its rows.  [cashflows] never returns
    an empty table (lemma [cashflows_nonempty]), so the table without
    columns that pandas builds from no rows does not occur. *)

From Stdlib Require Import String QArith Qabs Qround ZArith List Lia Lqa Bool.
From Stdlib Require Import PrimFloat FloatOps.
Set Warnings "-inexact-float".
Import ListNotations.
Open Scope Q_scope.

(** ** Exceptions and results *)

Inductive exn : Type :=
| ValueError (msg : string)
| IndexError (msg : string)
| ZeroDivisionError (msg : string)
| OverflowError (msg : string)
| TypeError (msg : string).

Inductive result (A : Type) : Type :=
| Ok (a : A)
| Raise (e : exn).

Arguments Ok {A} a.
Arguments Raise {A} e.

Definition bind {A B : Type} (r : result A) (f : A -> result B) : result B :=
  match r with
  | Ok a => f a
  | Raise e => Raise e
  end.

Notation "x <- c ;; k" := (bind c (fun x => k))
  (at level 61, c at next level, right associativity).

Fixpoint mapM {A B : Type} (f : A -> result B) (l : list A) : result (list B) :=
  match l with
  | [] => Ok []
  | a :: l' => b <- f a ;; bs <- mapM f l' ;; Ok (b :: bs)
  end.

(** ** Float primitives *)

Definition Qltb (a b : Q) : bool := negb (Qle_bool b a).

(** [a / b] on Python floats: division by zero raises. *)
Definition pydiv (a b : Q) : result Q :=
  if Qeq_bool b 0 then Raise (ZeroDivisionError "float division by zero")
  else Ok (a / b).

(** A float value that may be the not-a-number or an infinity. *)
Inductive pyfloat : Type :=
| Fin (q : Q)
| PInf
| NInf
| NaN.

(** [a / b] where [a] is a numpy float64 (the result of a pandas [sum]):
    division by zero does not raise, it gives an infinity of the sign of
    [a], and the not-a-number for [0 / 0]. *)
Definition npdiv (a b : Q) : pyfloat :=
  if Qeq_bool b 0 then
    if Qeq_bool a 0 then NaN
    else if Qltb 0 a then PInf else NInf
  else Fin (a / b).

Definition pyfloat_eq (x y : pyfloat) : Prop :=
  match x, y with
  | Fin a, Fin b => a == b
  | PInf, PInf => True
  | NInf, NInf => True
  | NaN, NaN => True
  | _, _ => False
  end.

Definition tol12 : Q := 1 # 1000000000000.
Definition tol10 : Q := 1 # 10000000000.

(** [l[i]] for a Python sequence of the given kind (["tuple"] or
    ["list"]): a negative index counts from the end, an index out of
    range raises [IndexError] with the text of that kind. *)
Definition getitem {A : Type} (kind : string) (l : list A) (i : Z) : result A :=
  let n := Z.of_nat (length l) in
  let j := if (i <? 0)%Z then (i + n)%Z else i in
  if ((0 <=? j)%Z && (j <? n)%Z)%bool then
    match nth_error l (Z.to_nat j) with
    | Some x => Ok x
    | None => Raise (IndexError (kind ++ " index out of range"))
    end
  else Raise (IndexError (kind ++ " index out of range")).

(** ** Data classes *)

Record BondSpec : Type := mkBondSpec {
  fv : Q;
  coupon_rate : Q;
  maturity : Q;
  coupon_freq : Z
}.

Record FlatYield : Type := mkFlatYield {
  j : Q;
  fy_m : Z
}.

Record YieldCurve : Type := mkYieldCurve {
  pillars : list Q;
  rates : list Q;
  m : Z
}.

(** [YieldCurve.__post_init__]. *)
Definition post_init (c : YieldCurve) : result unit :=
  if negb (length (pillars c) =? length (rates c))%nat then
    Raise (ValueError "pillars and rates must have the same length")
  else if (length (pillars c) <? 1)%nat then
    Raise (ValueError "Need at least one pillar")
  else if existsb (fun t => Qle_bool t 0) (pillars c) then
    Raise (ValueError "All pillars must be > 0 (years)")
  else if existsb
            (fun i => Qle_bool (nth (i + 1) (pillars c) 0) (nth i (pillars c) 0))
            (seq 0 (length (pillars c) - 1)) then
    Raise (ValueError "pillars must be strictly increasing")
  else if (m c <=? 0)%Z then
    Raise (ValueError "m must be positive")
  else Ok tt.

(** The constructor call [YieldCurve(pillars, rates, m)]. *)
Definition YieldCurve_new (ps rs : list Q) (m0 : Z) : result YieldCurve :=
  let c := mkYieldCurve ps rs m0 in
  _ <- post_init c ;; Ok c.

(** ** YieldCurve methods *)

(** The [for i in range(len(self.pillars)-1)] loop of [zero_rate]:
    [Some r] when an iteration returns [r], [None] when the loop ends.
    The interpolated rate is the rational [r0 + w * (r1 - r0)]; the float
    that the source returns is this expression rounded at each operation
    ([B64.zero_rate_loop]). *)
Fixpoint zero_rate_loop (c : YieldCurve) (t : Q) (idxs : list nat)
  : result (option Q) :=
  match idxs with
  | [] => Ok None
  | i :: idxs0 =>
      t0 <- getitem "tuple" (pillars c) (Z.of_nat i) ;;
      t1 <- getitem "tuple" (pillars c) (Z.of_nat i + 1) ;;
      if (Qle_bool t0 t && Qle_bool t t1)%bool then
        r0 <- getitem "tuple" (rates c) (Z.of_nat i) ;;
        r1 <- getitem "tuple" (rates c) (Z.of_nat i + 1) ;;
        w <- pydiv (t - t0) (t1 - t0) ;;
        Ok (Some (r0 + w * (r1 - r0)))
      else zero_rate_loop c t idxs0
  end.

Definition zero_rate (c : YieldCurve) (t : Q) : result Q :=
  p0 <- getitem "tuple" (pillars c) 0 ;;
  if Qle_bool t p0 then getitem "tuple" (rates c) 0
  else
    pl <- getitem "tuple" (pillars c) (-1) ;;
    if Qle_bool pl t then getitem "tuple" (rates c) (-1)
    else
      found <- zero_rate_loop c t (seq 0 (length (pillars c) - 1)) ;;
      match found with
      | Some r => Ok r
      | None => getitem "tuple" (rates c) (-1)
      end.

(** The message of the error of [df].  The source appends the values of
    [t], [r] and [m] to it ([... at t=..., r=..., m=...]); their decimal
    rendering is not modelled. *)
Definition invalid_rate_msg : string := "Invalid rate/compounding: 1 + r/m <= 0".

(** The text of the [OverflowError] of a float power. *)
Definition overflow_msg : string := "(34, 'Numerical result out of range')".

(** [bump_parallel]; each new rate is the sum [r + d], rounded in the
    source ([B64.bump_parallel]). *)
Definition bump_parallel (c : YieldCurve) (bp : Q) : result YieldCurve :=
  let d := bp / 10000 in
  YieldCurve_new (pillars c) (map (fun r => r + d) (rates c)) (m c).

(** [new_rates[idx] += d] on the list copy of the rates. *)
Fixpoint add_at (l : list Q) (idx : nat) (d : Q) : list Q :=
  match l, idx with
  | [], _ => []
  | r :: l', O => (r + d) :: l'
  | r :: l', S idx' => r :: add_at l' idx' d
  end.

Definition bump_key (c : YieldCurve) (idx : Z) (bp : Q) : result YieldCurve :=
  if negb ((0 <=? idx)%Z && (idx <? Z.of_nat (length (rates c)))%Z) then
    Raise (IndexError "idx out of range")
  else
    let d := bp / 10000 in
    YieldCurve_new (pillars c) (add_at (rates c) (Z.to_nat idx) d) (m c).

(** ** Cash-flow schedule *)

Record Row : Type := mkRow {
  k : Z;
  t : Q;
  accrual : Q;
  cashflow : Q;
  coupon : Q
}.

(** [range(1, n + 1)]. *)
Definition range1 (n : Z) : list Z :=
  map (fun i => Z.of_nat i) (seq 1 (Z.to_nat n)).

(** [[k / p for k in range(1, n_full + 1)]]; [p > 0] has been checked. *)
Definition full_times (n_full p : Z) : list Q :=
  map (fun k => inject_Z k / inject_Z p) (range1 n_full).

(** The row loop of [cashflows], from index [i] and previous time [t_prev]. *)
Fixpoint build_rows (fv0 c T : Q) (i : Z) (t_prev : Q) (times : list Q)
  : result (list Row) :=
  match times with
  | [] => Ok []
  | t0 :: times' =>
      let dt := t0 - t_prev in
      if Qle_bool dt 0 then
        Raise (ValueError "Non-increasing time grid generated")
      else
        let coupon0 := fv0 * c * dt in
        let cf := if Qltb (Qabs (t0 - T)) tol10 then coupon0 + fv0 else coupon0 in
        rows <- build_rows fv0 c T (i + 1) t0 times' ;;
        Ok (mkRow i t0 dt cf coupon0 :: rows)
  end.

(** [n_full = int(math.floor(n_exact + 1e-12))].  On floats the product
    and the sum are rounded before the floor is taken ([B64.cashflows]);
    the two floors differ only when [T * p + 1e-12] lies within that
    rounding of an integer. *)
Definition n_full_of (bond : BondSpec) : Z :=
  Qfloor (maturity bond * inject_Z (coupon_freq bond) + tol12).

(** The time grid that [cashflows] builds before the row loop: the full
    periods, then the stub policy ([stub]) or the forced integer number of
    periods (no [stub]), where [times[-1]] is read without a check. *)
Definition schedule_times (bond : BondSpec) (stub : bool) : result (list Q) :=
  let T := maturity bond in
  let p := coupon_freq bond in
  let n_exact := T * inject_Z p in
  let n_full := n_full_of bond in
  let times := full_times n_full p in
  if stub then
    if Qltb tol10 (Qabs (n_exact - inject_Z n_full)) then
      match times with
      | _ :: _ =>
          tl <- getitem "list" times (-1) ;;
          if Qltb (Qabs (tl - T)) tol12 then Ok times else Ok (times ++ [T])
      | [] => Ok (times ++ [T])
      end
    else
      match times with
      | _ :: _ =>
          tl <- getitem "list" times (-1) ;;
          if Qltb tol12 (Qabs (tl - T)) then Ok (times ++ [T]) else Ok times
      | [] => Ok (times ++ [T])
      end
  else
    let T_used := inject_Z n_full / inject_Z p in
    let times := full_times n_full p in
    tl <- getitem "list" times (-1) ;;
    if Qltb tol12 (Qabs (tl - T_used)) then Ok (times ++ [T_used]) else Ok times.

(** [cashflows]: the input checks, the time grid, the row loop. *)
Definition cashflows (bond : BondSpec) (stub : bool) : result (list Row) :=
  if (Qle_bool (fv bond) 0 || Qle_bool (maturity bond) 0)%bool then
    Raise (ValueError "fv and maturity must be positive")
  else if (coupon_freq bond <=? 0)%Z then
    Raise (ValueError "coupon_freq p must be positive integer")
  else if Qltb (coupon_rate bond) 0 then
    Raise (ValueError "coupon_rate cannot be negative")
  else
    times <- schedule_times bond stub ;;
    build_rows (fv bond) (coupon_rate bond) (maturity bond) 1 0 times.

(** ** Pricing and metrics *)

Record PRow : Type := mkPRow {
  row : Row;
  row_df : Q;
  pv : Q
}.

Definition Qsum (l : list Q) : Q := fold_right Qplus 0 l.

Definition price (cf_pv : list PRow) : Q := Qsum (map pv cf_pv).

Definition macaulay_duration (cf_pv : list PRow) : pyfloat :=
  let P := price cf_pv in
  if Qeq_bool P 0 then NaN
  else Fin (Qsum (map (fun r => t (row r) * pv r) cf_pv) / P).

Definition convexity_flat (cf_pv : list PRow) (y : FlatYield) : result pyfloat :=
  let P := price cf_pv in
  if Qeq_bool P 0 then Ok NaN
  else
    q <- pydiv (j y) (inject_Z (fy_m y)) ;;
    let a := 1 + q in
    inv_m <- pydiv 1 (inject_Z (fy_m y)) ;;
    let s := Qsum (map (fun r => pv r * t (row r) * (t (row r) + inv_m)) cf_pv) in
    Ok (npdiv (s / P) (a * a)).

Record EffResult : Type := mkEffResult {
  eff_price : Q;
  eff_duration : Q;
  eff_convexity : Q
}.

Record KrdRow : Type := mkKrdRow {
  pillar : Q;
  krd : Q
}.

(** [enumerate(l)]. *)
Definition enumerate {A : Type} (l : list A) : list (Z * A) :=
  combine (map Z.of_nat (seq 0 (length l))) l.

Section Pricing.

(** [x ** y] on floats.  A power with a fractional exponent is not a
    rational, so the power function is a parameter of the pricing
    functions: it gives the float, or [None] when the power is too large
    for a float.  Nothing else is assumed about it. *)
Variable fpow : Q -> Q -> option Q.

(** [x ** y] for a float [x > 0]: the only error is the [OverflowError]
    that Python raises when the result is out of range. *)
Definition pypow (x y : Q) : result Q :=
  match fpow x y with
  | Some v => Ok v
  | None => Raise (OverflowError overflow_msg)
  end.

Definition df (c : YieldCurve) (t0 : Q) : result Q :=
  r <- zero_rate c t0 ;;
  q <- pydiv r (inject_Z (m c)) ;;
  let base := 1 + q in
  if Qle_bool base 0 then Raise (ValueError invalid_rate_msg)
  else pypow base (- inject_Z (m c) * t0).

Definition price_from_curve (cf : list Row) (curve : YieldCurve)
  : result (list PRow) :=
  mapM (fun r => d <- df curve (t r) ;; Ok (mkPRow r d (cashflow r * d))) cf.

(** [effective_duration_convexity].  The two divisors are the products
    [2.0 * base * dy] and [base * dy * dy] of the source; on floats each
    can be 0 by underflow when the rational product is not, and the
    statements keep them at least [tiny] away from 0. *)
Definition effective_duration_convexity
    (bond : BondSpec) (curve : YieldCurve) (bump_bp : Q) (stub : bool)
  : result EffResult :=
  cf <- cashflows bond stub ;;
  cf_base <- price_from_curve cf curve ;;
  let base := price cf_base in
  c_up <- bump_parallel curve bump_bp ;;
  cf_up <- price_from_curve cf c_up ;;
  let up := price cf_up in
  c_dn <- bump_parallel curve (- bump_bp) ;;
  cf_dn <- price_from_curve cf c_dn ;;
  let dn := price cf_dn in
  let dy := bump_bp / 10000 in
  eff_dur <- pydiv (dn - up) (2 * base * dy) ;;
  eff_conv <- pydiv (up + dn - 2 * base) (base * dy * dy) ;;
  Ok (mkEffResult base eff_dur eff_conv).

(** One iteration of the loop of [key_rate_durations]. *)
Definition krd_step (cf : list Row) (curve : YieldCurve) (bump_bp base dy : Q)
    (it : Z * Q) : result KrdRow :=
  bumped <- bump_key curve (fst it) bump_bp ;;
  cf_b <- price_from_curve cf bumped ;;
  let pb := price cf_b in
  kr <- pydiv (- (pb - base)) (base * dy) ;;
  Ok (mkKrdRow (snd it) kr).

Definition key_rate_durations
    (bond : BondSpec) (curve : YieldCurve) (bump_bp : Q) (stub : bool)
  : result (list KrdRow) :=
  cf <- cashflows bond stub ;;
  cf_base <- price_from_curve cf curve ;;
  let base := price cf_base in
  let dy := bump_bp / 10000 in
  mapM (krd_step cf curve bump_bp base dy) (enumerate (pillars curve)).

End Pricing.

(** ** Distances from the branch points *)

(** [1e-9].  A hypothesis on the period count [T * p] keeps this distance
    from the integer where the number of full periods changes; the
    rounding of [T * p + 1e-12] on floats is below [1e-15] for a period
    count below 1. *)
Definition margin : Q := 1 # 1000000000.

(** [1e-300].  A divisor of at least this absolute value is not 0 on
    floats either: the rounding of a product is relative, and the
    smallest positive floats lie below [1e-307]. *)
Definition tiny : Q := 1 # (10 ^ 300).

(** ** Definitions used in the statements *)

(** A curve that the constructor accepts. *)
Definition valid_curve (c : YieldCurve) : Prop := post_init c = Ok tt.

(** A bond that passes the checks at the head of [cashflows]. *)
Definition valid_bond (b : BondSpec) : Prop :=
  0 < fv b /\ 0 < maturity b /\ (0 < coupon_freq b)%Z /\ 0 <= coupon_rate b.

(** The value interpolated on the segment from pillar [i] to pillar [i+1]. *)
Definition interp (c : YieldCurve) (t0 : Q) (i : nat) : Q :=
  nth i (rates c) 0
  + (t0 - nth i (pillars c) 0) / (nth (S i) (pillars c) 0 - nth i (pillars c) 0)
    * (nth (S i) (rates c) 0 - nth i (rates c) 0).

(** The curve that [bump_parallel] builds. *)
Definition bumped_parallel (c : YieldCurve) (bp : Q) : YieldCurve :=
  mkYieldCurve (pillars c) (map (fun r => r + bp / 10000) (rates c)) (m c).

(** The curve that [bump_key] builds for the pillar at position [i]. *)
Definition bumped_key (c : YieldCurve) (i : nat) (bp : Q) : YieldCurve :=
  mkYieldCurve (pillars c) (add_at (rates c) i (bp / 10000)) (m c).

(** [times] is strictly increasing and starts above [t_prev]. *)
Fixpoint increasing_from (t_prev : Q) (times : list Q) : Prop :=
  match times with
  | [] => True
  | t0 :: times' => t_prev < t0 /\ increasing_from t0 times'
  end.

(** The cash flow of the row at time [t0] with accrual [dt]. *)
Definition row_cashflow (fv0 c T t0 dt : Q) : Q :=
  if Qltb (Qabs (t0 - T)) tol10 then fv0 * c * dt + fv0 else fv0 * c * dt.

(** The rows that the loop of [cashflows] builds when no check fails
    (see [build_rows_increasing]). *)
Fixpoint rows_of (fv0 c T : Q) (i : Z) (t_prev : Q) (times : list Q) : list Row :=
  match times with
  | [] => []
  | t0 :: times' =>
      mkRow i t0 (t0 - t_prev) (row_cashflow fv0 c T t0 (t0 - t_prev))
            (fv0 * c * (t0 - t_prev))
      :: rows_of fv0 c T (i + 1) t0 times'
  end.

(** The time before the one at position [i] of a grid that starts at 0. *)
Definition prev_time (times : list Q) (i : nat) : Q :=
  match i with
  | O => 0
  | S i' => nth i' times 0
  end.

(** The price of a pricing that succeeded. *)
Definition price_or_zero (r : result (list PRow)) : Q :=
  match r with
  | Ok cf_b => price cf_b
  | Raise _ => 0
  end.

Definition rows_or_nil {A : Type} (r : result (list A)) : list A :=
  match r with
  | Ok l => l
  | Raise _ => []
  end.

(** Default values for [nth] and [last]. *)
Definition row0 : Row := mkRow 0 0 0 0 0.
Definition krd0 : KrdRow := mkKrdRow 0 0.

(** ** Example inputs *)

(** The largest finite float, [2^1024 - 2^971]. *)
Definition dbl_max : Q := inject_Z (2 ^ 1024 - 2 ^ 971).

(** A power function to run the pricing functions with: the rational
    power at the integer part of the exponent, and no value when that
    power is beyond the largest float.  It is the power of the source
    whenever [m * t] is an integer. *)
Definition Qpow_floor (b e : Q) : option Q :=
  let v := Qpower b (Qfloor e) in
  if Qltb dbl_max (Qabs v) then None else Some v.

Definition curve3 : YieldCurve := mkYieldCurve [1; 2; 5] [0.01; 0.02; 0.05] 2.

(** A curve whose rates make the discount base non-positive. *)
Definition curve_neg : YieldCurve := mkYieldCurve [1; 2; 5] [-3; -3; -3] 2.

(** A curve whose discount base is [0.5] at every tenor. *)
Definition curve_half : YieldCurve := mkYieldCurve [1; 2; 5] [-1; -1; -1] 2.

Definition bond_5y : BondSpec := mkBondSpec 100 0.05 5 2.
Definition bond_2_3 : BondSpec := mkBondSpec 100 0.05 2.3 2.
Definition bond_short : BondSpec := mkBondSpec 100 0.05 0.5 1.
Definition bond_near_1 : BondSpec := mkBondSpec 100 0.05 0.9999999999999 1.
Definition bond_tiny_stub : BondSpec := mkBondSpec 100 0.05 1.000000000075 2.

(** The bond whose maturity is the float nearest to [0.111111111111],
    [4003199668769771 / 2^55], with nine coupons a year. *)
Definition bond_ninth : BondSpec :=
  mkBondSpec 100 0.05 (4003199668769771 # (2 ^ 55)) 9.

(** A priced table whose present values cancel, and one of price 110. *)
Definition priced_zero : list PRow :=
  [mkPRow (mkRow 1 1 1 5 5) 1 5; mkPRow (mkRow 2 2 1 (-5) 5) 1 (-5)].
Definition priced_110 : list PRow :=
  [mkPRow (mkRow 1 1 1 5 5) 1 5; mkPRow (mkRow 2 2 1 105 5) 1 105].

(** The schedule of [bond_5y] and its pricings on [curve3], on [curve3]
    bumped by 50 and by -50 basis points. *)
Definition cf_5y : list Row :=
  Eval vm_compute in rows_or_nil (cashflows bond_5y true).

Definition cf_5y_base : list PRow :=
  Eval vm_compute in rows_or_nil (price_from_curve Qpow_floor cf_5y curve3).

Definition cf_5y_up : list PRow :=
  Eval vm_compute in
    rows_or_nil (price_from_curve Qpow_floor cf_5y (bumped_parallel curve3 50)).

Definition cf_5y_dn : list PRow :=
  Eval vm_compute in
    rows_or_nil (price_from_curve Qpow_floor cf_5y (bumped_parallel curve3 (- (50)))).

(** [build_flat_curve]: the given pillars, the rate [y.j] at each of
    them, the compounding of [y]. *)
Definition build_flat_curve (y : FlatYield) (ps : list Q) : result YieldCurve :=
  YieldCurve_new ps (map (fun _ => j y) ps) (fy_m y).

(** The default pillars of [build_flat_curve]. *)
Definition default_pillars : list Q := [0.5; 1; 2; 5; 10; 20; 30].

(** [steepener_shock_bp]. *)
Definition steepener_shock_bp (t0 short_end long_start short_bp long_bp : Q)
  : result Q :=
  if Qle_bool t0 short_end then Ok short_bp
  else if Qle_bool long_start t0 then Ok long_bp
  else
    w <- pydiv (t0 - short_end) (long_start - short_end) ;;
    Ok (short_bp + w * (long_bp - short_bp)).

(** [make_flattener_fn] of scripts/run_scenarios.py: the closure it returns. *)
Definition make_flattener_fn (short_end long_start short_bp long_bp : Q)
  : Q -> result Q :=
  fun t0 =>
    if Qle_bool t0 short_end then Ok short_bp
    else if Qle_bool long_start t0 then Ok long_bp
    else
      w <- pydiv (t0 - short_end) (long_start - short_end) ;;
      Ok (short_bp + w * (long_bp - short_bp)).

(** [apply_tenor_dependent_shock]; the shock function may raise. *)
Definition apply_tenor_dependent_shock (curve : YieldCurve)
    (shock_fn : Q -> result Q) : result YieldCurve :=
  new_rates <- mapM (fun tr => s <- shock_fn (fst tr) ;; Ok (snd tr + s / 10000))
                    (combine (pillars curve) (rates curve)) ;;
  YieldCurve_new (pillars curve) new_rates (m curve).

(** [bump_key] applied at each index of [idxs] in turn. *)
Fixpoint bump_keys (c : YieldCurve) (idxs : list nat) (bp : Q)
  : result YieldCurve :=
  match idxs with
  | [] => Ok c
  | i :: idxs' => c' <- bump_key c (Z.of_nat i) bp ;; bump_keys c' idxs' bp
  end.

(** The conditions that [__post_init__] checks. *)
Definition curve_conditions (ps rs : list Q) (m0 : Z) : Prop :=
  length ps = length rs /\
  (1 <= length ps)%nat /\
  (forall x, In x ps -> 0 < x) /\
  (forall i, (S i < length ps)%nat -> nth i ps 0 < nth (S i) ps 0) /\
  (0 < m0)%Z.

(** [x / a] for a Python float [x] that may be the not-a-number or an
    infinity: a zero divisor raises whatever [x] is. *)
Definition pyfloat_div (x : pyfloat) (a : Q) : result pyfloat :=
  if Qeq_bool a 0 then Raise (ZeroDivisionError "float division by zero")
  else
    match x with
    | Fin q => Ok (Fin (q / a))
    | NaN => Ok NaN
    | PInf => Ok (if Qltb 0 a then PInf else NInf)
    | NInf => Ok (if Qltb 0 a then NInf else PInf)
    end.

(** [modified_duration_flat]. *)
Definition modified_duration_flat (mac_dur : pyfloat) (y : FlatYield)
  : result pyfloat :=
  q <- pydiv (j y) (inject_Z (fy_m y)) ;;
  pyfloat_div mac_dur (1 + q).

(** The estimate columns that [add_scenario] of scripts/run_scenarios.py
    adds to a row when it is given a yield change. *)
Record ScenarioEst : Type := mkScenarioEst {
  dy_bp : Q;
  est_price_dur : Q;
  est_price_durconv : Q;
  err_dur : Q;
  err_durconv : Q
}.

Record ScenarioRow : Type := mkScenarioRow {
  scenario : string;
  sc_price : Q;
  pct_chg_vs_base : Q;
  note : string;
  estimates : option ScenarioEst
}.

Section Scenarios.

Variable fpow : Q -> Q -> option Q.

(** [add_scenario] of [main] in scripts/run_scenarios.py.  The variables
    that the closure reads ([cf], [P0], [D], [C]) and the list it appends
    to ([scenarios]) are arguments; the new list is returned. *)
Definition add_scenario (cf : list Row) (P0 D C : Q)
    (scenarios : list ScenarioRow)
    (name : string) (curve_s : YieldCurve) (dy_bp0 : option Q) (note0 : string)
  : result (list ScenarioRow) :=
  cf_s <- price_from_curve fpow cf curve_s ;;
  let P := price cf_s in
  q <- pydiv P P0 ;;
  let pct := (q - 1) * 100 in
  let est :=
    match dy_bp0 with
    | None => None
    | Some b =>
        let dy := b / 10000 in
        let est_dur := P0 * (1 - D * dy) in
        let est_dc := P0 * (1 - D * dy + 0.5 * C * dy * dy) in
        Some (mkScenarioEst b est_dur est_dc (P - est_dur) (P - est_dc))
    end in
  Ok (scenarios ++ [mkScenarioRow name P pct note0 est]).

End Scenarios.

(** [max(a, b)] of Python. *)
Definition pymax (a b : Q) : Q := if Qltb a b then b else a.

(** [close] of bond_check.py. *)
Definition close (a b rel abs_ : Q) : bool :=
  Qle_bool (Qabs (a - b)) (pymax abs_ (rel * pymax (Qabs a) (Qabs b))).

(** ** The curve reader of engine/excel_io.py *)

Section ExcelReader.

(** The workbook is read through openpyxl, which is not part of the
    repository: the type of a non-empty cell value and the conversions
    [float(v)] and [int(v)] are parameters ([int] is also applied to an
    empty cell, where Python raises [TypeError]). *)
Variable cell : Type.
Variable float_of : cell -> result Q.
Variable int_of : option cell -> result Z.

(** What [read_curve_xlsx] reads of a loaded workbook: the columns A and
    B of the curve sheet by row number, if the sheet exists, and the cell
    B10 of the base sheet, if that sheet exists. *)
Record Workbook : Type := mkWorkbook {
  curve_sheet : option (nat -> option cell * option cell);
  base_B10 : option (option cell)
}.

(** The loop of [read_curve_xlsx] over the rows [rows], with the lists
    gathered so far. *)
Fixpoint scan_rows (ws : nat -> option cell * option cell) (rows : list nat)
    (ps rs : list Q) : result (list Q * list Q) :=
  match rows with
  | [] => Ok (ps, rs)
  | r :: rows' =>
      match ws r with
      | (None, None) => Ok (ps, rs)
      | (None, Some _) | (Some _, None) => scan_rows ws rows' ps rs
      | (Some tv, Some yv) =>
          tq <- float_of tv ;;
          yq <- float_of yv ;;
          scan_rows ws rows' (ps ++ [tq]) (rs ++ [yq])
      end
  end.

(** [read_curve_xlsx] on a loaded workbook.  The text of its
    [ValueError] names the sheet and the file in the source. *)
Definition read_curve_xlsx (wb : Workbook) : result (option YieldCurve) :=
  match curve_sheet wb with
  | None => Ok None
  | Some ws_curve =>
      match base_B10 wb with
      | None => Raise (ValueError "Sheet not found")
      | Some b10 =>
          m0 <- int_of b10 ;;
          pr <- scan_rows ws_curve (seq 2 4998) [] [] ;;
          match fst pr with
          | [] => Ok None
          | _ :: _ =>
              c <- YieldCurve_new (fst pr) (snd pr) m0 ;;
              Ok (Some c)
          end
      end
  end.

End ExcelReader.

Arguments mkWorkbook {cell} curve_sheet base_B10.
Arguments curve_sheet {cell} w.
Arguments base_B10 {cell} w.
Arguments scan_rows {cell} float_of ws rows ps rs.
Arguments read_curve_xlsx {cell} float_of int_of wb.

(** A curve sheet with two complete rows, a blank row and a row below
    it, and the same sheet without the last row; the cells hold
    numbers. *)
Definition sheet_a (r : nat) : option Q * option Q :=
  match r with
  | 2%nat => (Some 1, Some 0.01)
  | 3%nat => (Some 2, Some 0.02)
  | 5%nat => (Some 5, Some 0.05)
  | _ => (None, None)
  end.

Definition sheet_b (r : nat) : option Q * option Q :=
  match r with
  | 2%nat => (Some 1, Some 0.01)
  | 3%nat => (Some 2, Some 0.02)
  | _ => (None, None)
  end.

(** [int(v)] for a cell that holds a number or is empty. *)
Definition int_of_Q (v : option Q) : result Z :=
  match v with
  | Some q => Ok (Qfloor q)
  | None =>
      Raise (TypeError "int() argument must be a string, a bytes-like object or a real number, not 'NoneType'")
  end.

(** ** The engine on binary64 floats *)

(** The curve methods and [cashflows] once more, on the binary64 floats
    of the source: [+], [-], [*], [/] and the comparisons are the IEEE
    754 operations, rounded to nearest, so a closed term evaluates to the
    very float that the source computes. *)
Module B64.

Local Open Scope float_scope.

(** [a / b] on Python floats: division by zero raises. *)
Definition pydiv (a b : float) : result float :=
  if b =? 0 then Raise (ZeroDivisionError "float division by zero")
  else Ok (a / b).

(** The float of an integer, rounded to nearest (exact below [2^53]). *)
Definition of_Z (z : Z) : float :=
  SF2Prim (SpecFloat.binary_normalize prec emax z 0 false).

(** [math.floor]. *)
Definition floor (x : float) : result Z :=
  match Prim2SF x with
  | SpecFloat.S754_zero _ => Ok 0%Z
  | SpecFloat.S754_finite s mx e =>
      let z := if s then Z.neg mx else Z.pos mx in
      Ok (if (0 <=? e)%Z then z * 2 ^ e else z / 2 ^ (- e))%Z
  | SpecFloat.S754_infinity _ =>
      Raise (OverflowError "cannot convert float infinity to integer")
  | SpecFloat.S754_nan =>
      Raise (ValueError "cannot convert float NaN to integer")
  end.

Record YieldCurve : Type := mkYieldCurve {
  pillars : list float;
  rates : list float;
  m : Z
}.

Definition post_init (c : YieldCurve) : result unit :=
  if negb (length (pillars c) =? length (rates c))%nat then
    Raise (ValueError "pillars and rates must have the same length")
  else if (length (pillars c) <? 1)%nat then
    Raise (ValueError "Need at least one pillar")
  else if existsb (fun t => t <=? 0) (pillars c) then
    Raise (ValueError "All pillars must be > 0 (years)")
  else if existsb
            (fun i => nth (i + 1) (pillars c) 0 <=? nth i (pillars c) 0)
            (seq 0 (length (pillars c) - 1)) then
    Raise (ValueError "pillars must be strictly increasing")
  else if (m c <=? 0)%Z then
    Raise (ValueError "m must be positive")
  else Ok tt.

Definition YieldCurve_new (ps rs : list float) (m0 : Z) : result YieldCurve :=
  let c := mkYieldCurve ps rs m0 in
  _ <- post_init c ;; Ok c.

Fixpoint zero_rate_loop (c : YieldCurve) (t : float) (idxs : list nat)
  : result (option float) :=
  match idxs with
  | [] => Ok None
  | i :: idxs0 =>
      t0 <- getitem "tuple" (pillars c) (Z.of_nat i) ;;
      t1 <- getitem "tuple" (pillars c) (Z.of_nat i + 1) ;;
      if ((t0 <=? t) && (t <=? t1))%bool then
        r0 <- getitem "tuple" (rates c) (Z.of_nat i) ;;
        r1 <- getitem "tuple" (rates c) (Z.of_nat i + 1) ;;
        w <- pydiv (t - t0) (t1 - t0) ;;
        Ok (Some (r0 + w * (r1 - r0)))
      else zero_rate_loop c t idxs0
  end.

Definition zero_rate (c : YieldCurve) (t : float) : result float :=
  p0 <- getitem "tuple" (pillars c) 0 ;;
  if t <=? p0 then getitem "tuple" (rates c) 0
  else
    pl <- getitem "tuple" (pillars c) (-1) ;;
    if pl <=? t then getitem "tuple" (rates c) (-1)
    else
      found <- zero_rate_loop c t (seq 0 (length (pillars c) - 1)) ;;
      match found with
      | Some r => Ok r
      | None => getitem "tuple" (rates c) (-1)
      end.

Definition bump_parallel (c : YieldCurve) (bp : float) : result YieldCurve :=
  let d := bp / 10000 in
  YieldCurve_new (pillars c) (map (fun r => r + d) (rates c)) (m c).

Record BondSpec : Type := mkBondSpec {
  fv : float;
  coupon_rate : float;
  maturity : float;
  coupon_freq : Z
}.

Record Row : Type := mkRow {
  k : Z;
  t : float;
  accrual : float;
  cashflow : float;
  coupon : float
}.

(** [[k / p for k in range(1, n_full + 1)]], a quotient of two
    integers (each below [2^53] in every use here). *)
Definition full_times (n_full p : Z) : list float :=
  map (fun k => of_Z k / of_Z p) (range1 n_full).

Fixpoint build_rows (fv0 c T : float) (i : Z) (t_prev : float)
    (times : list float) : result (list Row) :=
  match times with
  | [] => Ok []
  | t0 :: times' =>
      let dt := t0 - t_prev in
      if dt <=? 0 then
        Raise (ValueError "Non-increasing time grid generated")
      else
        let coupon0 := fv0 * c * dt in
        let cf := if abs (t0 - T) <? 1e-10 then coupon0 + fv0 else coupon0 in
        rows <- build_rows fv0 c T (i + 1) t0 times' ;;
        Ok (mkRow i t0 dt cf coupon0 :: rows)
  end.

Definition schedule_times (n_full : Z) (bond : BondSpec) (stub : bool)
  : result (list float) :=
  let T := maturity bond in
  let p := coupon_freq bond in
  let n_exact := T * of_Z p in
  let times := full_times n_full p in
  if stub then
    if 1e-10 <? abs (n_exact - of_Z n_full) then
      match times with
      | _ :: _ =>
          tl <- getitem "list" times (-1) ;;
          if abs (tl - T) <? 1e-12 then Ok times else Ok (times ++ [T])
      | [] => Ok (times ++ [T])
      end
    else
      match times with
      | _ :: _ =>
          tl <- getitem "list" times (-1) ;;
          if 1e-12 <? abs (tl - T) then Ok (times ++ [T]) else Ok times
      | [] => Ok (times ++ [T])
      end
  else
    let T_used := of_Z n_full / of_Z p in
    let times := full_times n_full p in
    tl <- getitem "list" times (-1) ;;
    if 1e-12 <? abs (tl - T_used) then Ok (times ++ [T_used]) else Ok times.

Definition cashflows (bond : BondSpec) (stub : bool) : result (list Row) :=
  if ((fv bond <=? 0) || (maturity bond <=? 0))%bool then
    Raise (ValueError "fv and maturity must be positive")
  else if (coupon_freq bond <=? 0)%Z then
    Raise (ValueError "coupon_freq p must be positive integer")
  else if coupon_rate bond <? 0 then
    Raise (ValueError "coupon_rate cannot be negative")
  else
    n_full <- floor (maturity bond * of_Z (coupon_freq bond) + 1e-12) ;;
    times <- schedule_times n_full bond stub ;;
    build_rows (fv bond) (coupon_rate bond) (maturity bond) 1 0 times.

(** The default value for [nth]. *)
Definition row0 : Row := mkRow 0 0 0 0 0.

(** Example inputs. *)
Definition curve3 : YieldCurve := mkYieldCurve [1; 2; 5] [0.01; 0.02; 0.05] 2.
Definition curve_a : YieldCurve := mkYieldCurve [1; 2; 5] [0.03; 0.01; 0.05] 2.
Definition bond_2_3 : BondSpec := mkBondSpec 100 0.05 2.3 2.
Definition bond_tiny_stub : BondSpec := mkBondSpec 100 0.05 1.000000000075 2.
Definition bond_near_1 : BondSpec := mkBondSpec 100 0.05 0.9999999999999 1.
Definition bond_ninth : BondSpec := mkBondSpec 100 0.05 0.111111111111 9.
Definition bond_near_2 : BondSpec := mkBondSpec 100 0.05 1.999999999999 1.

End B64.

(** * Properties *)

(** Decide a closed comparison of rationals or integers. *)
Ltac qconst := vm_compute; (reflexivity || discriminate).

(** A concrete bond passes the checks of [cashflows]. *)
Ltac valid_bond_tac := repeat split; qconst.

(** ** Comparisons and results *)

Lemma Qltb_true (a b : Q) : Qltb a b = true <-> a < b.
Proof.
  unfold Qltb. rewrite negb_true_iff. split; intro H.
  - apply Qnot_le_lt. intro Hle. apply Qle_bool_iff in Hle. congruence.
  - destruct (Qle_bool b a) eqn:E; [|reflexivity].
    apply Qle_bool_iff in E. lra.
Qed.

Lemma Qltb_false (a b : Q) : Qltb a b = false <-> b <= a.
Proof.
  unfold Qltb. rewrite negb_false_iff. apply Qle_bool_iff.
Qed.

Lemma Qle_bool_false (a b : Q) : Qle_bool a b = false <-> b < a.
Proof.
  split; intro H.
  - apply Qnot_le_lt. intro Hle. apply Qle_bool_iff in Hle. congruence.
  - destruct (Qle_bool a b) eqn:E; [|reflexivity].
    apply Qle_bool_iff in E. lra.
Qed.

Lemma Qeq_bool_false (a b : Q) : Qeq_bool a b = false <-> ~ a == b.
Proof.
  split; intro H.
  - now apply Qeq_bool_neq.
  - destruct (Qeq_bool a b) eqn:E; [|reflexivity].
    apply Qeq_bool_iff in E. contradiction.
Qed.

Lemma pydiv_ok (a b : Q) : ~ b == 0 -> pydiv a b = Ok (a / b).
Proof.
  intro H. unfold pydiv. now rewrite (proj2 (Qeq_bool_false b 0) H).
Qed.

Lemma pydiv_zero (a b : Q) :
  b == 0 -> pydiv a b = Raise (ZeroDivisionError "float division by zero").
Proof.
  intro H. unfold pydiv. now rewrite (Qeq_eq_bool _ _ H).
Qed.

(** ** Indexing *)

Lemma getitem_nat {A : Type} {kind : string} (l : list A) (i : nat) (d : A) :
  (i < length l)%nat -> getitem kind l (Z.of_nat i) = Ok (nth i l d).
Proof.
  intro H. unfold getitem.
  replace (Z.of_nat i <? 0)%Z with false by (symmetry; apply Z.ltb_ge; lia).
  replace (0 <=? Z.of_nat i)%Z with true by (symmetry; apply Z.leb_le; lia).
  replace (Z.of_nat i <? Z.of_nat (length l))%Z with true
    by (symmetry; apply Z.ltb_lt; lia).
  simpl. rewrite Nat2Z.id.
  destruct (nth_error l i) eqn:E.
  - now rewrite (nth_error_nth l i d E).
  - apply nth_error_None in E. lia.
Qed.

Lemma getitem_succ {A : Type} {kind : string} (l : list A) (i : nat) (d : A) :
  (S i < length l)%nat -> getitem kind l (Z.of_nat i + 1) = Ok (nth (S i) l d).
Proof.
  intro H. replace (Z.of_nat i + 1)%Z with (Z.of_nat (S i)) by lia.
  now apply getitem_nat.
Qed.

Lemma last_as_nth {A : Type} (l : list A) (d : A) :
  last l d = nth (length l - 1) l d.
Proof.
  induction l as [|a l IH]; [reflexivity|].
  destruct l as [|b l]; [reflexivity|].
  change (last (a :: b :: l) d) with (last (b :: l) d). rewrite IH.
  simpl. now rewrite Nat.sub_0_r.
Qed.

Lemma getitem_last {A : Type} {kind : string} (l : list A) (d : A) :
  l <> [] -> getitem kind l (-1) = Ok (last l d).
Proof.
  intro H.
  assert (Hlen : (0 < length l)%nat) by (destruct l; [congruence | simpl; lia]).
  rewrite last_as_nth.
  rewrite <- (getitem_nat (kind:=kind) l (length l - 1) d) by lia.
  unfold getitem.
  replace (-1 <? 0)%Z with true by reflexivity.
  replace (Z.of_nat (length l - 1) <? 0)%Z with false
    by (symmetry; apply Z.ltb_ge; lia).
  now replace (-1 + Z.of_nat (length l))%Z with (Z.of_nat (length l - 1)) by lia.
Qed.

Lemma getitem_last_nil {A : Type} :
  getitem "list" (@nil A) (-1) = Raise (IndexError "list index out of range").
Proof. reflexivity. Qed.

(** ** Valid curves *)

Lemma valid_curve_inv (c : YieldCurve) :
  valid_curve c ->
  length (pillars c) = length (rates c) /\
  (1 <= length (pillars c))%nat /\
  (forall x, In x (pillars c) -> 0 < x) /\
  (forall i, (S i < length (pillars c))%nat ->
             nth i (pillars c) 0 < nth (S i) (pillars c) 0) /\
  (0 < m c)%Z.
Proof.
  unfold valid_curve, post_init. intro H.
  destruct (length (pillars c) =? length (rates c))%nat eqn:E1;
    [|discriminate]. simpl in H.
  destruct (length (pillars c) <? 1)%nat eqn:E2; [discriminate|].
  destruct (existsb (fun t => Qle_bool t 0) (pillars c)) eqn:E3; [discriminate|].
  destruct (existsb _ (seq 0 (length (pillars c) - 1))) eqn:E4; [discriminate|].
  destruct (m c <=? 0)%Z eqn:E5; [discriminate|].
  apply Nat.eqb_eq in E1. apply Nat.ltb_ge in E2. apply Z.leb_gt in E5.
  repeat split; trivial.
  - intros x Hx. apply Qle_bool_false.
    destruct (Qle_bool x 0) eqn:E; [|reflexivity].
    assert (existsb (fun t => Qle_bool t 0) (pillars c) = true)
      by (apply existsb_exists; eauto).
    congruence.
  - intros i Hi. apply Qle_bool_false.
    destruct (Qle_bool (nth (S i) (pillars c) 0) (nth i (pillars c) 0)) eqn:E;
      [|reflexivity].
    rewrite <- E4. symmetry. apply existsb_exists. exists i. split.
    + apply in_seq. lia.
    + now rewrite Nat.add_1_r.
Qed.

Lemma valid_curve_intro (ps rs : list Q) (m0 : Z) :
  length ps = length rs ->
  (1 <= length ps)%nat ->
  (forall x, In x ps -> 0 < x) ->
  (forall i, (S i < length ps)%nat -> nth i ps 0 < nth (S i) ps 0) ->
  (0 < m0)%Z ->
  valid_curve (mkYieldCurve ps rs m0).
Proof.
  intros H1 H2 H3 H4 H5. unfold valid_curve, post_init. simpl.
  rewrite (proj2 (Nat.eqb_eq _ _) H1). simpl.
  rewrite (proj2 (Nat.ltb_ge _ _) H2).
  replace (existsb (fun t => Qle_bool t 0) ps) with false.
  2:{ symmetry. apply not_true_is_false. intro E.
      apply existsb_exists in E. destruct E as [x [Hx E]].
      apply Qle_bool_iff in E. specialize (H3 x Hx). lra. }
  replace (existsb _ (seq 0 (length ps - 1))) with false.
  2:{ symmetry. apply not_true_is_false. intro E.
      apply existsb_exists in E. destruct E as [i [Hi E]].
      apply in_seq in Hi. apply Qle_bool_iff in E.
      rewrite Nat.add_1_r in E. specialize (H4 i ltac:(lia)). lra. }
  now rewrite (proj2 (Z.leb_gt _ _) H5).
Qed.

Lemma increasing_nth (l : list Q) :
  (forall i, (S i < length l)%nat -> nth i l 0 < nth (S i) l 0) ->
  forall i j, (i < j)%nat -> (j < length l)%nat -> nth i l 0 < nth j l 0.
Proof.
  intros H i j Hij. induction Hij as [|j Hij IH]; intro Hj.
  - now apply H.
  - apply Qlt_trans with (nth j l 0); [apply IH; lia | now apply H].
Qed.

Lemma increasing_nth_le (l : list Q) :
  (forall i, (S i < length l)%nat -> nth i l 0 < nth (S i) l 0) ->
  forall i j, (i <= j)%nat -> (j < length l)%nat -> nth i l 0 <= nth j l 0.
Proof.
  intros H i j Hij Hj. destruct (Nat.eq_dec i j) as [->|Hne].
  - apply Qle_refl.
  - apply Qlt_le_weak. apply increasing_nth; trivial. lia.
Qed.

(** ** [zero_rate] *)

Lemma getitem_first {A : Type} {kind : string} (l : list A) (d : A) :
  (0 < length l)%nat -> getitem kind l 0 = Ok (nth 0 l d).
Proof. apply (getitem_nat (kind:=kind) l 0 d). Qed.

Lemma zero_rate_loop_step (c : YieldCurve) (t0 : Q) (i : nat) (idxs : list nat) :
  valid_curve c -> (S i < length (pillars c))%nat ->
  zero_rate_loop c t0 (i :: idxs) =
  if (Qle_bool (nth i (pillars c) 0) t0 && Qle_bool t0 (nth (S i) (pillars c) 0))%bool
  then Ok (Some (interp c t0 i))
  else zero_rate_loop c t0 idxs.
Proof.
  intros Hv Hi. destruct (valid_curve_inv c Hv) as (Hlen & _ & _ & Hinc & _).
  simpl. rewrite (getitem_nat _ i 0) by lia.
  rewrite (getitem_succ _ i 0) by lia. simpl.
  destruct (_ && _)%bool; [|reflexivity].
  rewrite (getitem_nat _ i 0) by lia.
  rewrite (getitem_succ _ i 0) by lia. simpl.
  rewrite pydiv_ok; [reflexivity|].
  specialize (Hinc i Hi). lra.
Qed.

Lemma zero_rate_loop_found (c : YieldCurve) (t0 : Q) (i : nat) :
  valid_curve c -> (S i < length (pillars c))%nat ->
  nth i (pillars c) 0 < t0 -> t0 <= nth (S i) (pillars c) 0 ->
  forall n a, (a <= i < a + n)%nat ->
  zero_rate_loop c t0 (seq a n) = Ok (Some (interp c t0 i)).
Proof.
  intros Hv Hi Hlo Hhi.
  destruct (valid_curve_inv c Hv) as (_ & _ & _ & Hinc & _).
  induction n as [|n IH]; intros a Ha; [lia|].
  change (seq a (S n)) with (a :: seq (S a) n).
  rewrite zero_rate_loop_step by (trivial; lia).
  destruct (Nat.eq_dec a i) as [->|Hne].
  - rewrite (proj2 (Qle_bool_iff _ _) (Qlt_le_weak _ _ Hlo)).
    now rewrite (proj2 (Qle_bool_iff _ _) Hhi).
  - assert (Hlt : nth (S a) (pillars c) 0 < t0).
    { apply Qle_lt_trans with (nth i (pillars c) 0); trivial.
      apply increasing_nth_le; trivial; lia. }
    rewrite (proj2 (Qle_bool_false _ _) Hlt), andb_false_r.
    apply IH. lia.
Qed.

Lemma zero_rate_loop_total (c : YieldCurve) (t0 : Q) (idxs : list nat) :
  valid_curve c -> (forall i, In i idxs -> (S i < length (pillars c))%nat) ->
  exists o, zero_rate_loop c t0 idxs = Ok o.
Proof.
  intros Hv. induction idxs as [|i idxs IH]; intro Hin.
  - now exists None.
  - rewrite zero_rate_loop_step by (trivial; apply Hin; now left).
    destruct (_ && _)%bool; [eauto|].
    apply IH. intros i' Hi'. apply Hin. now right.
Qed.

Lemma pillars_nonempty (c : YieldCurve) :
  valid_curve c -> pillars c <> [] /\ rates c <> [].
Proof.
  intro Hv. destruct (valid_curve_inv c Hv) as (Hlen & Hpos & _).
  split; intro E; rewrite E in *; simpl in *; lia.
Qed.

Lemma zero_rate_below (c : YieldCurve) (t0 : Q) :
  valid_curve c -> t0 <= nth 0 (pillars c) 0 ->
  zero_rate c t0 = Ok (nth 0 (rates c) 0).
Proof.
  intros Hv Ht. destruct (valid_curve_inv c Hv) as (Hlen & Hpos & _).
  unfold zero_rate. rewrite (getitem_first (pillars c) 0) by lia. simpl.
  rewrite (proj2 (Qle_bool_iff _ _) Ht).
  apply getitem_first. lia.
Qed.

Lemma zero_rate_above (c : YieldCurve) (t0 : Q) :
  valid_curve c -> last (pillars c) 0 <= t0 ->
  zero_rate c t0 = Ok (last (rates c) 0).
Proof.
  intros Hv Ht. destruct (valid_curve_inv c Hv) as (Hlen & Hpos & _ & Hinc & _).
  destruct (pillars_nonempty c Hv) as [Hp Hr].
  unfold zero_rate. rewrite (getitem_first (pillars c) 0) by lia. simpl.
  destruct (Qle_bool t0 (nth 0 (pillars c) 0)) eqn:E.
  - apply Qle_bool_iff in E.
    rewrite last_as_nth in Ht.
    assert (Hone : length (pillars c) = 1%nat).
    { destruct (Nat.eq_dec (length (pillars c)) 1) as [|Hne]; trivial.
      assert (nth 0 (pillars c) 0 < nth (length (pillars c) - 1) (pillars c) 0)
        by (apply increasing_nth; trivial; lia).
      lra. }
    rewrite (getitem_first (rates c) 0) by lia.
    rewrite last_as_nth. now rewrite <- Hlen, Hone.
  - rewrite (getitem_last _ 0 Hp). simpl.
    rewrite (proj2 (Qle_bool_iff _ _) Ht). now apply getitem_last.
Qed.

Lemma zero_rate_segment (c : YieldCurve) (t0 : Q) (i : nat) :
  valid_curve c -> (S i < length (pillars c))%nat ->
  nth i (pillars c) 0 < t0 -> t0 <= nth (S i) (pillars c) 0 ->
  t0 < last (pillars c) 0 ->
  zero_rate c t0 = Ok (interp c t0 i).
Proof.
  intros Hv Hi Hlo Hhi Hlast.
  destruct (valid_curve_inv c Hv) as (Hlen & Hpos & _ & Hinc & _).
  destruct (pillars_nonempty c Hv) as [Hp Hr].
  unfold zero_rate. rewrite (getitem_first (pillars c) 0) by lia. simpl.
  assert (H0 : nth 0 (pillars c) 0 < t0).
  { apply Qle_lt_trans with (nth i (pillars c) 0); trivial.
    apply increasing_nth_le; trivial; lia. }
  rewrite (proj2 (Qle_bool_false _ _) H0).
  rewrite (getitem_last _ 0 Hp). simpl.
  rewrite (proj2 (Qle_bool_false _ _) Hlast).
  rewrite (zero_rate_loop_found c t0 i) by (trivial; lia).
  reflexivity.
Qed.

Lemma zero_rate_total (c : YieldCurve) (t0 : Q) :
  valid_curve c -> exists r, zero_rate c t0 = Ok r.
Proof.
  intros Hv. destruct (valid_curve_inv c Hv) as (Hlen & Hpos & _).
  destruct (pillars_nonempty c Hv) as [Hp Hr].
  unfold zero_rate. rewrite (getitem_first (pillars c) 0) by lia. simpl.
  destruct (Qle_bool t0 _).
  - rewrite (getitem_first (rates c) 0) by lia. eauto.
  - rewrite (getitem_last _ 0 Hp). simpl.
    destruct (Qle_bool _ t0).
    + rewrite (getitem_last _ 0 Hr). eauto.
    + destruct (zero_rate_loop_total c t0 (seq 0 (length (pillars c) - 1)) Hv)
        as [o Ho].
      { intros i Hin. apply in_seq in Hin. lia. }
      rewrite Ho. simpl. destruct o; [eauto|].
      rewrite (getitem_last _ 0 Hr). eauto.
Qed.

(** C3, amended.  On a valid curve, [zero_rate] returns the first rate
    at or below the first pillar and the last rate at or above the last
    pillar, as stored.  Everywhere else, so strictly between two adjacent
    pillars [(t0,r0)], [(t1,r1)] and also at the pillar [t1] itself when
    it is not the last one, it returns the interpolation expression
    [r0 + (t-t0)/(t1-t0) * (r1-r0)] of the segment that ends at or after
    [t]: at an interior pillar the result is that expression with
    [t = t1] and not the stored rate [r1] (see
    [zero_rate_pillar_counterexample] for its value on floats). *)
Theorem zero_rate_spec (c : YieldCurve) (Hv : valid_curve c) :
  (forall t0, t0 <= nth 0 (pillars c) 0 ->
     zero_rate c t0 = Ok (nth 0 (rates c) 0)) /\
  (forall t0, last (pillars c) 0 <= t0 ->
     zero_rate c t0 = Ok (last (rates c) 0)) /\
  (forall i t0, (S i < length (pillars c))%nat ->
     nth i (pillars c) 0 < t0 -> t0 < nth (S i) (pillars c) 0 ->
     zero_rate c t0 =
     Ok (nth i (rates c) 0
         + (t0 - nth i (pillars c) 0)
           / (nth (S i) (pillars c) 0 - nth i (pillars c) 0)
           * (nth (S i) (rates c) 0 - nth i (rates c) 0))) /\
  (forall i, (S (S i) < length (pillars c))%nat ->
     zero_rate c (nth (S i) (pillars c) 0) =
     Ok (nth i (rates c) 0
         + (nth (S i) (pillars c) 0 - nth i (pillars c) 0)
           / (nth (S i) (pillars c) 0 - nth i (pillars c) 0)
           * (nth (S i) (rates c) 0 - nth i (rates c) 0))).
Proof.
  destruct (valid_curve_inv c Hv) as (Hlen & Hpos & _ & Hinc & _).
  split; [intros t0 Ht; now apply zero_rate_below|].
  split; [intros t0 Ht; now apply zero_rate_above|].
  split.
  - intros i t0 Hi Hlo Hhi. apply (zero_rate_segment c t0 i); trivial.
    + now apply Qlt_le_weak.
    + apply Qlt_le_trans with (nth (S i) (pillars c) 0); trivial.
      rewrite last_as_nth. apply increasing_nth_le; trivial; lia.
  - intros i Hi. apply (zero_rate_segment c (nth (S i) (pillars c) 0) i); trivial.
    + lia.
    + apply Hinc. lia.
    + apply Qle_refl.
    + rewrite last_as_nth. apply increasing_nth; trivial; lia.
Qed.

Lemma zero_rate_spec_witness :
  valid_curve curve3 /\
  zero_rate curve3 2 = Ok (0.01 + (2 - 1) / (2 - 1) * (0.02 - 0.01)) /\
  zero_rate curve3 7 = Ok 0.05.
Proof.
  split; [reflexivity|]. split.
  - apply (proj2 (proj2 (proj2 (zero_rate_spec curve3 eq_refl))) 0%nat).
    simpl. lia.
  - apply (proj1 (proj2 (zero_rate_spec curve3 eq_refl)) 7). qconst.
Defined.

(** The claim C3 as stated fails at an interior pillar.  On the floats
    of the source, for the valid curve with pillars [1, 2, 5] and rates
    [0.03, 0.01, 0.05], [zero_rate(2.0)] evaluates
    [0.03 + 1.0 * (0.01 - 0.03)] and returns [0.010000000000000002],
    which is not the rate [0.01] stored at the pillar [2]. *)
Lemma zero_rate_pillar_counterexample :
  B64.post_init B64.curve_a = Ok tt /\
  nth 1 (B64.pillars B64.curve_a) 0%float = 2%float /\
  nth 1 (B64.rates B64.curve_a) 0%float = 0.01%float /\
  B64.zero_rate B64.curve_a 2 = Ok 0.010000000000000002%float /\
  PrimFloat.eqb 0.010000000000000002 0.01 = false.
Proof. repeat split; vm_compute; reflexivity. Qed.

(** ** [df] *)

Lemma df_unfold (fpow : Q -> Q -> option Q) (c : YieldCurve) (t0 r : Q) :
  (0 < m c)%Z -> zero_rate c t0 = Ok r ->
  df fpow c t0 =
  if Qle_bool (1 + r / inject_Z (m c)) 0 then Raise (ValueError invalid_rate_msg)
  else pypow fpow (1 + r / inject_Z (m c)) (- inject_Z (m c) * t0).
Proof.
  intros Hm Hr. unfold df. rewrite Hr. simpl.
  rewrite pydiv_ok; [reflexivity|].
  assert (0 < inject_Z (m c)) by (change 0 with (inject_Z 0); now rewrite <- Zlt_Qlt).
  lra.
Qed.

(** C4, amended.  On a valid curve [df t] raises the invalid-rate error
    exactly when [base = 1 + zero_rate(t)/m] is at most 0.  Otherwise its
    outcome is that of the float power [base ** (-m*t)]: it returns the
    power, or raises [OverflowError] when the power is too large for a
    float.  It raises nothing else.  The constructor accepts the curve
    whatever its rates are, so the invalid-rate error can only come from
    [df]. *)
Theorem df_spec (fpow : Q -> Q -> option Q) (c : YieldCurve) (t0 : Q)
    (Hv : valid_curve c) :
  (exists r, zero_rate c t0 = Ok r) /\
  (forall r, zero_rate c t0 = Ok r ->
     let base := 1 + r / inject_Z (m c) in
     let e := - inject_Z (m c) * t0 in
     (df fpow c t0 = Raise (ValueError invalid_rate_msg) <-> base <= 0) /\
     (~ base <= 0 ->
      (forall v, fpow base e = Some v -> df fpow c t0 = Ok v) /\
      (fpow base e = None ->
       df fpow c t0 = Raise (OverflowError overflow_msg))) /\
     (forall x, df fpow c t0 = Raise x ->
        x = ValueError invalid_rate_msg \/ x = OverflowError overflow_msg)) /\
  (forall rs, length rs = length (rates c) ->
     valid_curve (mkYieldCurve (pillars c) rs (m c))).
Proof.
  destruct (valid_curve_inv c Hv) as (Hlen & Hpos & Hp & Hinc & Hm).
  split; [now apply zero_rate_total|]. split.
  - intros r Hr base e. rewrite (df_unfold fpow c t0 r Hm Hr). fold base e.
    unfold pypow.
    destruct (Qle_bool base 0) eqn:E.
    + apply Qle_bool_iff in E. split; [tauto|]. split; [contradiction|].
      intros x Hx. left. congruence.
    + apply Qle_bool_false in E. split; [|split].
      * split; [|intro; lra].
        destruct (fpow base e); discriminate.
      * intros _. split.
        -- intros v Hp'. now rewrite Hp'.
        -- intro Hp'. now rewrite Hp'.
      * intros x Hx. right. destruct (fpow base e); congruence.
  - intros rs Hrs. apply valid_curve_intro; trivial. congruence.
Qed.

Lemma df_spec_witness :
  valid_curve curve_neg /\
  df Qpow_floor curve_neg 1 = Raise (ValueError invalid_rate_msg) /\
  df Qpow_floor curve3 1 = Ok (Qpower (1 + 0.01 / 2) (-2)).
Proof.
  split; [reflexivity|]. split.
  - apply (proj1 (proj2 (df_spec Qpow_floor curve_neg 1 eq_refl)) (-3) eq_refl).
    qconst.
  - apply (proj1 (proj2 (df_spec Qpow_floor curve3 1 eq_refl)) 0.01 eq_refl).
    + apply Qlt_not_le. qconst.
    + vm_compute. reflexivity.
Defined.

(** The claim C4 as stated fails when the power overflows.  On the valid
    curve with the rate [-1] at every pillar and [m = 2] the base is
    [0.5 > 0]; at [t = 2000] the exponent is [-4000], [0.5 ** -4000] is
    [2^4000], beyond every float, and [df] raises [OverflowError]: it
    neither returns the power nor raises the invalid-rate error. *)
Lemma df_overflow_counterexample :
  valid_curve curve_half /\
  zero_rate curve_half 2000 = Ok (-1) /\
  0 < 1 + (-1) / inject_Z (m curve_half) /\
  - inject_Z (m curve_half) * 2000 == -4000 /\
  df Qpow_floor curve_half 2000 = Raise (OverflowError overflow_msg).
Proof. repeat split; vm_compute; reflexivity. Qed.

(** ** Bumps *)

Lemma valid_curve_rates (c : YieldCurve) (rs : list Q) :
  valid_curve c -> length rs = length (rates c) ->
  YieldCurve_new (pillars c) rs (m c) = Ok (mkYieldCurve (pillars c) rs (m c)).
Proof.
  intros Hv Hrs. unfold YieldCurve_new.
  destruct (valid_curve_inv c Hv) as (Hlen & Hpos & Hp & Hinc & Hm).
  assert (H : valid_curve (mkYieldCurve (pillars c) rs (m c)))
    by (apply valid_curve_intro; trivial; congruence).
  unfold valid_curve in H. now rewrite H.
Qed.

Lemma bump_parallel_ok (c : YieldCurve) (bp : Q) :
  valid_curve c ->
  bump_parallel c bp =
  Ok (mkYieldCurve (pillars c) (map (fun r => r + bp / 10000) (rates c)) (m c)).
Proof.
  intro Hv. unfold bump_parallel. apply valid_curve_rates; trivial.
  apply length_map.
Qed.





(** ** The row loop *)

Lemma build_rows_increasing (fv0 c T : Q) (times : list Q) :
  forall i t_prev, increasing_from t_prev times ->
  build_rows fv0 c T i t_prev times = Ok (rows_of fv0 c T i t_prev times).
Proof.
  induction times as [|t0 times IH]; intros i t_prev Hinc; [reflexivity|].
  destruct Hinc as [Hlt Hinc]. simpl.
  replace (Qle_bool (t0 - t_prev) 0) with false
    by (symmetry; apply Qle_bool_false; lra).
  rewrite (IH _ _ Hinc). reflexivity.
Qed.

Lemma rows_of_length (fv0 c T : Q) (times : list Q) :
  forall i t_prev, length (rows_of fv0 c T i t_prev times) = length times.
Proof.
  induction times as [|t0 times IH]; intros; simpl; [reflexivity|].
  now rewrite IH.
Qed.

Lemma rows_of_times (fv0 c T : Q) (times : list Q) :
  forall i t_prev, map t (rows_of fv0 c T i t_prev times) = times.
Proof.
  induction times as [|t0 times IH]; intros; simpl; [reflexivity|].
  now rewrite IH.
Qed.

Lemma rows_of_nth (fv0 c T : Q) (times : list Q) :
  forall n i t_prev, (n < length times)%nat ->
  nth n (rows_of fv0 c T i t_prev times) row0 =
  let tp := match n with O => t_prev | S n' => nth n' times 0 end in
  let tn := nth n times 0 in
  mkRow (i + Z.of_nat n) tn (tn - tp) (row_cashflow fv0 c T tn (tn - tp))
        (fv0 * c * (tn - tp)).
Proof.
  induction times as [|t0 times IH]; intros n i t_prev Hn; [simpl in Hn; lia|].
  destruct n as [|n].
  - simpl. now rewrite Z.add_0_r.
  - simpl in Hn. simpl rows_of. simpl nth at 1.
    rewrite IH by lia. cbv zeta.
    replace (i + 1 + Z.of_nat n)%Z with (i + Z.of_nat (S n))%Z by lia.
    destruct n; reflexivity.
Qed.

(** ** The full-period grid *)

Lemma Qdiv_lt_compat (a b c : Q) : a < b -> 0 < c -> a / c < b / c.
Proof.
  intros Hab Hc. unfold Qdiv. apply Qmult_lt_compat_r; trivial.
  now apply Qinv_lt_0_compat.
Qed.

Lemma inject_Z_pos (z : Z) : (0 < z)%Z -> 0 < inject_Z z.
Proof. intro H. change 0 with (inject_Z 0). now rewrite <- Zlt_Qlt. Qed.

Lemma full_times_length (n p : Z) : length (full_times n p) = Z.to_nat n.
Proof. unfold full_times, range1. now rewrite !length_map, length_seq. Qed.

Lemma full_times_nth (n p : Z) (i : nat) :
  (i < Z.to_nat n)%nat ->
  nth i (full_times n p) 0 = inject_Z (Z.of_nat (S i)) / inject_Z p.
Proof.
  intro Hi. unfold full_times, range1. rewrite map_map.
  rewrite (nth_indep _ 0 (inject_Z (Z.of_nat 0) / inject_Z p))
    by now rewrite length_map, length_seq.
  rewrite (map_nth (fun x => inject_Z (Z.of_nat x) / inject_Z p)).
  now rewrite seq_nth.
Qed.

Lemma full_times_last (n p : Z) (d : Q) :
  (1 <= n)%Z -> last (full_times n p) d = inject_Z n / inject_Z p.
Proof.
  intro Hn. rewrite last_as_nth, full_times_length.
  rewrite (nth_indep _ d 0) by (rewrite full_times_length; lia).
  rewrite full_times_nth by lia.
  now replace (Z.of_nat (S (Z.to_nat n - 1))) with n by lia.
Qed.

Lemma full_times_nonempty (n p : Z) : (1 <= n)%Z -> full_times n p <> [].
Proof.
  intros Hn E. apply (f_equal (@length Q)) in E.
  rewrite full_times_length in E. simpl in E. lia.
Qed.

Lemma full_times_empty (n p : Z) : (n <= 0)%Z -> full_times n p = [].
Proof.
  intro Hn. unfold full_times, range1.
  now replace (Z.to_nat n) with 0%nat by lia.
Qed.

Lemma grid_increasing (p : Z) (N : nat) :
  (0 < p)%Z ->
  forall a tp, tp < inject_Z (Z.of_nat (S a)) / inject_Z p ->
  increasing_from tp
    (map (fun k => inject_Z k / inject_Z p) (map Z.of_nat (seq (S a) N))).
Proof.
  intro Hp. induction N as [|N IH]; intros a tp Htp; [exact I|].
  change (seq (S a) (S N)) with (S a :: seq (S (S a)) N). simpl map.
  split; trivial. apply IH.
  apply Qdiv_lt_compat; [|now apply inject_Z_pos].
  rewrite <- Zlt_Qlt. lia.
Qed.

Lemma full_times_increasing (n p : Z) :
  (0 < p)%Z -> increasing_from 0 (full_times n p).
Proof.
  intro Hp. unfold full_times, range1. apply grid_increasing; trivial.
  apply Qlt_shift_div_l; [now apply inject_Z_pos|].
  rewrite Qmult_0_l. apply inject_Z_pos. lia.
Qed.

Lemma full_times_nth_le_last (n p : Z) (i : nat) :
  (0 < p)%Z -> (i < Z.to_nat n)%nat ->
  nth i (full_times n p) 0 <= inject_Z n / inject_Z p.
Proof.
  intros Hp Hi. rewrite full_times_nth by trivial.
  unfold Qdiv. apply Qmult_le_compat_r.
  - rewrite <- Zle_Qle. lia.
  - apply Qlt_le_weak, Qinv_lt_0_compat. now apply inject_Z_pos.
Qed.

(** ** The number of full periods *)

Lemma Qfloor_unique (y : Q) (z : Z) :
  inject_Z z <= y -> y < inject_Z (z + 1) -> Qfloor y = z.
Proof.
  intros Hlo Hhi.
  pose proof (Qfloor_le y) as H1. pose proof (Qlt_floor y) as H2.
  assert (Ha : inject_Z (Qfloor y) < inject_Z (z + 1)) by lra.
  assert (Hb : inject_Z z < inject_Z (Qfloor y + 1)) by lra.
  rewrite <- Zlt_Qlt in Ha, Hb. lia.
Qed.

Lemma n_full_bounds (b : BondSpec) :
  let x := maturity b * inject_Z (coupon_freq b) in
  inject_Z (n_full_of b) <= x + tol12 /\ x + tol12 < inject_Z (n_full_of b) + 1.
Proof.
  intro x. unfold n_full_of. fold x. split.
  - apply Qfloor_le.
  - pose proof (Qlt_floor (x + tol12)) as H. rewrite inject_Z_plus in H. exact H.
Qed.

Lemma n_full_integral (b : BondSpec) (n : Z) :
  maturity b * inject_Z (coupon_freq b) == inject_Z n -> n_full_of b = n.
Proof.
  intro H. unfold n_full_of. rewrite H. apply Qfloor_unique.
  - unfold tol12. lra.
  - rewrite inject_Z_plus. change (inject_Z 1) with 1. unfold tol12. lra.
Qed.

(** ** The time grid of [cashflows] *)

Lemma Qabs_small (y c : Q) : - c <= y -> y <= c -> Qabs y <= c.
Proof. intros. now apply Qabs_Qle_condition. Qed.

Lemma Qabs_large (y c : Q) : y <= - c -> c <= Qabs y.
Proof.
  intro H. destruct (Qlt_le_dec (Qabs y) c) as [Hlt|]; trivial.
  apply Qabs_Qlt_condition in Hlt. lra.
Qed.

Lemma cashflows_valid (b : BondSpec) (stub : bool) :
  valid_bond b ->
  cashflows b stub =
  (times <- schedule_times b stub ;;
   build_rows (fv b) (coupon_rate b) (maturity b) 1 0 times).
Proof.
  intros (Hfv & HT & Hp & Hc). unfold cashflows.
  rewrite (proj2 (Qle_bool_false _ _) Hfv), (proj2 (Qle_bool_false _ _) HT).
  rewrite (proj2 (Z.leb_gt _ _) Hp), (proj2 (Qltb_false _ _) Hc).
  reflexivity.
Qed.

Lemma times_nostub (b : BondSpec) :
  (1 <= n_full_of b)%Z ->
  schedule_times b false = Ok (full_times (n_full_of b) (coupon_freq b)).
Proof.
  intro Hn. unfold schedule_times.
  rewrite (getitem_last _ 0) by now apply full_times_nonempty.
  rewrite full_times_last by trivial. cbn [bind].
  replace (Qltb tol12 _) with false; [reflexivity|].
  symmetry. apply Qltb_false. apply Qabs_small; unfold tol12; lra.
Qed.

Lemma times_nostub_empty (b : BondSpec) :
  (n_full_of b <= 0)%Z ->
  schedule_times b false = Raise (IndexError "list index out of range").
Proof.
  intro Hn. unfold schedule_times. now rewrite full_times_empty.
Qed.

Lemma times_stub_empty (b : BondSpec) :
  (n_full_of b <= 0)%Z -> schedule_times b true = Ok [maturity b].
Proof.
  intro Hn. unfold schedule_times. rewrite full_times_empty by trivial.
  now destruct (Qltb tol10 _).
Qed.

Lemma maturity_integral (b : BondSpec) (n : Z) :
  (0 < coupon_freq b)%Z ->
  maturity b * inject_Z (coupon_freq b) == inject_Z n ->
  inject_Z n / inject_Z (coupon_freq b) == maturity b.
Proof.
  intros Hp H. pose proof (inject_Z_pos _ Hp). rewrite <- H. field. lra.
Qed.

Lemma times_stub_integral (b : BondSpec) (n : Z) :
  (0 < coupon_freq b)%Z -> (1 <= n)%Z ->
  maturity b * inject_Z (coupon_freq b) == inject_Z n ->
  schedule_times b true = Ok (full_times n (coupon_freq b)).
Proof.
  intros Hp Hn H. unfold schedule_times.
  rewrite (n_full_integral b n H).
  pose proof (getitem_last (kind:="list") (full_times n (coupon_freq b)) 0
                (full_times_nonempty _ _ Hn)) as Hl.
  rewrite full_times_last in Hl by trivial.
  pose proof (maturity_integral b n Hp H) as HT.
  replace (Qltb tol10 _) with false.
  2:{ symmetry. apply Qltb_false. apply Qabs_small; unfold tol10; lra. }
  destruct (full_times n (coupon_freq b)) as [|q l] eqn:E.
  { now apply full_times_nonempty in E. }
  rewrite Hl. cbn [bind].
  replace (Qltb tol12 _) with false; [reflexivity|].
  symmetry. apply Qltb_false. apply Qabs_small; unfold tol12; lra.
Qed.

Lemma cashflows_rows (b : BondSpec) (stub : bool) (times : list Q) :
  valid_bond b -> schedule_times b stub = Ok times ->
  increasing_from 0 times ->
  cashflows b stub =
  Ok (rows_of (fv b) (coupon_rate b) (maturity b) 1 0 times).
Proof.
  intros Hv Ht Hinc. rewrite cashflows_valid by trivial. rewrite Ht.
  cbn [bind]. now apply build_rows_increasing.
Qed.

(** ** Schedules *)

(** C8. For a valid bond whose [maturity * coupon_freq] is the integer
    [n], [cashflows] (with or without stub) returns [n] rows whose times
    are [1/p, 2/p, ..., n/p], the last being the maturity. *)
Theorem cashflows_integral (b : BondSpec) (stub : bool) (n : Z)
    (Hv : valid_bond b)
    (Hn : maturity b * inject_Z (coupon_freq b) == inject_Z n) :
  exists rows,
    cashflows b stub = Ok rows /\
    Z.of_nat (length rows) = n /\
    map t rows = map (fun k => inject_Z k / inject_Z (coupon_freq b)) (range1 n) /\
    t (last rows row0) == maturity b.
Proof.
  pose proof Hv as (Hfv & HT & Hp & Hc).
  assert (Hn1 : (1 <= n)%Z).
  { assert (H : inject_Z 0 < inject_Z n).
    { rewrite <- Hn. change (inject_Z 0) with 0.
      apply Qmult_lt_0_compat; trivial. now apply inject_Z_pos. }
    rewrite <- Zlt_Qlt in H. lia. }
  assert (Ht : schedule_times b stub = Ok (full_times n (coupon_freq b))).
  { destruct stub.
    - now apply times_stub_integral.
    - rewrite <- (n_full_integral b n Hn) at 1.
      rewrite times_nostub; rewrite (n_full_integral b n Hn); trivial. }
  exists (rows_of (fv b) (coupon_rate b) (maturity b) 1 0
            (full_times n (coupon_freq b))).
  split; [|split; [|split]].
  - apply cashflows_rows; trivial. now apply full_times_increasing.
  - rewrite rows_of_length, full_times_length. lia.
  - apply rows_of_times.
  - rewrite last_as_nth, rows_of_length, full_times_length.
    rewrite rows_of_nth by (rewrite full_times_length; lia).
    cbv zeta. cbn [t]. rewrite full_times_nth by lia.
    replace (Z.of_nat (S (Z.to_nat n - 1))) with n by lia.
    now apply maturity_integral.
Qed.

Lemma cashflows_integral_witness :
  valid_bond bond_5y /\
  exists rows,
    cashflows bond_5y false = Ok rows /\
    Z.of_nat (length rows) = 10%Z /\
    map t rows = map (fun k => inject_Z k / inject_Z 2) (range1 10) /\
    t (last rows row0) == 5.
Proof.
  assert (Hv : valid_bond bond_5y)
    by valid_bond_tac.
  split; [exact Hv|].
  apply (cashflows_integral bond_5y false 10 Hv). reflexivity.
Defined.

Lemma n_full_short (b : BondSpec) :
  valid_bond b ->
  maturity b * inject_Z (coupon_freq b) <= 1 - margin -> n_full_of b = 0%Z.
Proof.
  intros (Hfv & HT & Hp & Hc) H. unfold n_full_of. apply Qfloor_unique.
  - assert (0 < maturity b * inject_Z (coupon_freq b)).
    { apply Qmult_lt_0_compat; trivial. now apply inject_Z_pos. }
    change (inject_Z 0) with 0. unfold tol12. lra.
  - change (inject_Z (0 + 1)) with 1. unfold tol12, margin in *. lra.
Qed.

Lemma row_cashflow_at_maturity (fv0 c T dt : Q) :
  row_cashflow fv0 c T T dt = fv0 * c * dt + fv0.
Proof.
  unfold row_cashflow.
  replace (Qltb (Qabs (T - T)) tol10) with true; [reflexivity|].
  symmetry. apply Qltb_true. apply Qabs_Qlt_condition. unfold tol10. lra.
Qed.

Lemma row_cashflow_before (fv0 c T t0 dt : Q) :
  t0 <= T - tol10 -> row_cashflow fv0 c T t0 dt = fv0 * c * dt.
Proof.
  intro H. unfold row_cashflow.
  replace (Qltb (Qabs (t0 - T)) tol10) with false; [reflexivity|].
  symmetry. apply Qltb_false. apply Qabs_large. lra.
Qed.

(** C10, amended.  For a valid bond with
    [maturity * coupon_freq <= 1 - 1e-9] (no full period, also when the
    sum [T*p + 1e-12] is rounded), [cashflows] without stub raises
    [IndexError]; with stub it returns the single row at the maturity,
    which carries the coupon and the face value. *)
Theorem cashflows_no_full_period (b : BondSpec)
    (Hv : valid_bond b)
    (Hshort : maturity b * inject_Z (coupon_freq b) <= 1 - margin) :
  cashflows b false = Raise (IndexError "list index out of range") /\
  exists r,
    cashflows b true = Ok [r] /\
    k r = 1%Z /\ t r = maturity b /\ accrual r = maturity b - 0 /\
    coupon r = fv b * coupon_rate b * (maturity b - 0) /\
    cashflow r = coupon r + fv b.
Proof.
  pose proof (n_full_short b Hv Hshort) as H0.
  pose proof Hv as (Hfv & HT & Hp & Hc). split.
  - rewrite cashflows_valid by trivial.
    rewrite times_nostub_empty by lia. reflexivity.
  - assert (Hcf : cashflows b true =
                   Ok (rows_of (fv b) (coupon_rate b) (maturity b) 1 0
                         [maturity b])).
    { apply cashflows_rows; trivial.
      - apply times_stub_empty. lia.
      - simpl. split; trivial. }
    cbn [rows_of] in Hcf. eexists. split; [exact Hcf|].
    cbn [k t accrual coupon cashflow].
    rewrite row_cashflow_at_maturity.
    repeat split; reflexivity.
Qed.

Lemma cashflows_no_full_period_witness :
  valid_bond bond_short /\
  cashflows bond_short false = Raise (IndexError "list index out of range") /\
  exists r, cashflows bond_short true = Ok [r] /\ t r = maturity bond_short.
Proof.
  assert (Hv : valid_bond bond_short)
    by valid_bond_tac.
  assert (Hs : maturity bond_short * inject_Z (coupon_freq bond_short)
               <= 1 - margin) by qconst.
  split; [exact Hv|].
  destruct (cashflows_no_full_period bond_short Hv Hs)
    as (Hn & r & Hr & _ & Ht & _).
  split; [exact Hn|]. exists r. split; [exact Hr | exact Ht].
Defined.

(** The claim C10 as stated fails just below one period: with
    [maturity * coupon_freq = 0.9999999999999] the tolerant floor counts
    one full period and [cashflows] without stub returns a row at [1]. *)
Lemma cashflows_below_one_period_counterexample :
  valid_bond bond_near_1 /\
  0 < maturity bond_near_1 * inject_Z (coupon_freq bond_near_1) /\
  maturity bond_near_1 * inject_Z (coupon_freq bond_near_1) < 1 /\
  Qfloor (maturity bond_near_1 * inject_Z (coupon_freq bond_near_1)) = 0%Z /\
  (exists r, cashflows bond_near_1 false = Ok [r] /\ t r == 1) /\
  cashflows bond_near_1 false <> Raise (IndexError "list index out of range") /\
  (exists r, cashflows bond_near_1 true = Ok [r] /\ t r == 1 /\
             ~ t r == maturity bond_near_1).
Proof.
  split; [valid_bond_tac|].
  split; [reflexivity|]. split; [reflexivity|]. split; [reflexivity|].
  split; [eexists; split; [vm_compute; reflexivity | reflexivity]|].
  split; [vm_compute; discriminate|].
  eexists. split; [vm_compute; reflexivity|].
  split; [reflexivity | vm_compute; discriminate].
Qed.

(** C2, on a stub shorter than [1e-10].  For [maturity = 1.000000000075]
    and two coupons a year the period count [2.00000000015] is not an
    integer, and [cashflows] with stub returns the full-period rows at
    [0.5] and [1.0] followed by the stub row at the maturity.  The row at
    [1.0], which is not the last one, carries the face value on top of
    its coupon, and so does the stub row: the face value is paid twice.
    The grid appends the maturity unless the last full-period time is
    within [1e-12] of it, while the row loop adds the face value to every
    row within [1e-10] of it.  The run on binary64 floats takes the same
    branches. *)
Theorem cashflows_stub_tiny_stub :
  valid_bond bond_tiny_stub /\
  inject_Z (Qfloor (maturity bond_tiny_stub * inject_Z (coupon_freq bond_tiny_stub)))
    < maturity bond_tiny_stub * inject_Z (coupon_freq bond_tiny_stub) /\
  (exists r1 r2 r3,
     cashflows bond_tiny_stub true = Ok [r1; r2; r3] /\
     t r1 == 0.5 /\ t r2 == 1 /\ t r3 = maturity bond_tiny_stub /\
     cashflow r1 == coupon r1 /\
     coupon r2 == 2.5 /\ cashflow r2 == 102.5 /\
     cashflow r2 == coupon r2 + fv bond_tiny_stub /\
     cashflow r3 == coupon r3 + fv bond_tiny_stub) /\
  (exists r1 r2 r3,
     B64.cashflows B64.bond_tiny_stub true = Ok [r1; r2; r3] /\
     B64.t r1 = 0.5%float /\ B64.t r2 = 1%float /\
     B64.t r3 = B64.maturity B64.bond_tiny_stub /\
     B64.cashflow r1 = B64.coupon r1 /\
     B64.coupon r2 = 2.5%float /\ B64.cashflow r2 = 102.5%float /\
     B64.cashflow r3 = (B64.coupon r3 + B64.fv B64.bond_tiny_stub)%float).
Proof.
  split; [valid_bond_tac|].
  split; [reflexivity|]. split.
  - do 3 eexists. split; [vm_compute; reflexivity|].
    repeat split; reflexivity.
  - do 3 eexists. split; [vm_compute; reflexivity|].
    repeat split; reflexivity.
Qed.

(** Without stub, a valid bond with at least one full period gets exactly
    the full-period rows; when the maturity lies [1e-10] or more after the
    last of them, no row carries the face value: the test of the row loop
    compares the row time with the requested maturity, not with the
    effective one. *)
Lemma cashflows_nostub_rows (b : BondSpec) :
  valid_bond b -> (1 <= n_full_of b)%Z ->
  exists rows,
    cashflows b false = Ok rows /\
    map t rows =
      map (fun k => inject_Z k / inject_Z (coupon_freq b)) (range1 (n_full_of b)) /\
    t (last rows row0) = inject_Z (n_full_of b) / inject_Z (coupon_freq b) /\
    (tol10 <= maturity b - inject_Z (n_full_of b) / inject_Z (coupon_freq b) ->
     forall i, (i < length rows)%nat ->
       cashflow (nth i rows row0) = coupon (nth i rows row0)).
Proof.
  intros Hv Hn. pose proof Hv as (Hfv & HT & Hp & Hc).
  exists (rows_of (fv b) (coupon_rate b) (maturity b) 1 0
            (full_times (n_full_of b) (coupon_freq b))).
  split; [|split; [|split]].
  - apply cashflows_rows; trivial.
    + now apply times_nostub.
    + now apply full_times_increasing.
  - apply rows_of_times.
  - rewrite last_as_nth, rows_of_length, full_times_length.
    rewrite rows_of_nth by (rewrite full_times_length; lia).
    cbv zeta. cbn [t]. rewrite full_times_nth by lia.
    now replace (Z.of_nat (S (Z.to_nat (n_full_of b) - 1))) with (n_full_of b)
      by lia.
  - intros Hgap i Hi. rewrite rows_of_length, full_times_length in Hi.
    rewrite rows_of_nth by (rewrite full_times_length; lia).
    cbv zeta. cbn [cashflow coupon].
    apply row_cashflow_before.
    pose proof (full_times_nth_le_last (n_full_of b) (coupon_freq b) i Hp Hi).
    lra.
Qed.

(** C1, on the example of the claim.  For [maturity = 2.3] and two coupons
    a year, [cashflows] without stub returns the four rows at
    [0.5, 1.0, 1.5, 2.0]; the last row, at the effective maturity [2.0],
    has cash flow [2.5], its coupon, and not [102.5]: the face value is
    not added to it. *)
Theorem cashflows_nostub_2_3 :
  exists r1 r2 r3 r4,
    cashflows bond_2_3 false = Ok [r1; r2; r3; r4] /\
    t r1 == 0.5 /\ t r2 == 1 /\ t r3 == 1.5 /\ t r4 == 2 /\
    coupon r4 == 2.5 /\ cashflow r4 == 2.5 /\
    ~ cashflow r4 == coupon r4 + fv bond_2_3.
Proof.
  do 4 eexists. split; [vm_compute; reflexivity|].
  repeat split; try reflexivity. qconst.
Qed.

(** [cashflows] never returns an empty table. *)
Lemma build_rows_length (fv0 c T : Q) (times : list Q) :
  forall i t_prev rows,
  build_rows fv0 c T i t_prev times = Ok rows -> length rows = length times.
Proof.
  induction times as [|t0 times IH]; intros i t_prev rows H; simpl in H.
  - now injection H as <-.
  - destruct (Qle_bool (t0 - t_prev) 0); [discriminate|].
    destruct (build_rows fv0 c T (i + 1) t0 times) as [rows'|e] eqn:E;
      [|discriminate].
    cbn [bind] in H. injection H as <-. simpl. f_equal. eapply IH, E.
Qed.

Lemma schedule_times_nonempty (b : BondSpec) (stub : bool) (times : list Q) :
  schedule_times b stub = Ok times -> times <> [].
Proof.
  unfold schedule_times. set (ft := full_times _ _).
  assert (Happ : ft ++ [maturity b] <> []) by (destruct ft; discriminate).
  assert (Happ' : forall x, ft ++ [x] <> []) by (destruct ft; discriminate).
  destruct stub.
  - destruct (Qltb tol10 _); destruct ft as [|q l] eqn:E;
      try (intro H; injection H as <-; exact Happ).
    + destruct (getitem _ (q :: l) (-1)); cbn [bind]; [|discriminate].
      destruct (Qltb _ tol12); intro H; injection H as <-;
        [discriminate | exact Happ].
    + destruct (getitem _ (q :: l) (-1)); cbn [bind]; [|discriminate].
      destruct (Qltb tol12 _); intro H; injection H as <-;
        [exact Happ | discriminate].
  - destruct ft as [|q l] eqn:E; [discriminate|].
    destruct (getitem _ (q :: l) (-1)); cbn [bind]; [|discriminate].
    destruct (Qltb tol12 _); intro H; injection H as <-;
      [apply Happ' | discriminate].
Qed.

Lemma cashflows_nonempty (b : BondSpec) (stub : bool) (rows : list Row) :
  cashflows b stub = Ok rows -> rows <> [].
Proof.
  unfold cashflows.
  destruct (_ || _)%bool; [discriminate|].
  destruct (_ <=? _)%Z; [discriminate|].
  destruct (Qltb _ 0); [discriminate|].
  destruct (schedule_times b stub) as [times|e] eqn:E; [|discriminate].
  cbn [bind]. intros H Hnil. apply build_rows_length in H.
  apply schedule_times_nonempty in E. subst rows.
  destruct times; [congruence | discriminate].
Qed.

(** ** Flat-yield metrics *)

(** C5. When the price of a priced table is exactly 0, both
    [macaulay_duration] and [convexity_flat] return the not-a-number and
    raise nothing.  When it is not 0, [macaulay_duration] returns
    [sum(t * pv) / price]; [convexity_flat], for a yield with [m > 0],
    returns a value, which is
    [(1/price) * sum(pv * t * (t + 1/m)) / (1 + j/m)^2] whenever
    [1 + j/m] is not 0. *)
Theorem metrics_spec (cf_pv : list PRow) (y : FlatYield) :
  (price cf_pv == 0 ->
     macaulay_duration cf_pv = NaN /\ convexity_flat cf_pv y = Ok NaN) /\
  (~ price cf_pv == 0 ->
     macaulay_duration cf_pv =
       Fin (Qsum (map (fun r => t (row r) * pv r) cf_pv) / price cf_pv) /\
     ((0 < fy_m y)%Z ->
      exists v, convexity_flat cf_pv y = Ok v /\
        (~ 1 + j y / inject_Z (fy_m y) == 0 ->
         pyfloat_eq v
           (Fin (1 / price cf_pv
                 * Qsum (map (fun r => pv r * t (row r)
                                       * (t (row r) + 1 / inject_Z (fy_m y)))
                             cf_pv)
                 / (1 + j y / inject_Z (fy_m y)) ^ 2))))).
Proof.
  split.
  - intro HP. unfold macaulay_duration, convexity_flat.
    now rewrite (Qeq_eq_bool _ _ HP).
  - intro HP. unfold macaulay_duration, convexity_flat.
    rewrite (proj2 (Qeq_bool_false _ _) HP). split; [reflexivity|].
    intro Hm. pose proof (inject_Z_pos _ Hm) as Him.
    rewrite !pydiv_ok by lra. cbn [bind].
    eexists. split; [reflexivity|].
    intro Ha. unfold npdiv.
    replace (Qeq_bool _ 0) with false.
    2:{ symmetry. apply Qeq_bool_false. intro E.
        apply Qmult_integral in E. tauto. }
    cbn [pyfloat_eq]. simpl Qpower. field.
    split; [lra|]. split; [trivial|].
    intro E. apply Ha.
    setoid_replace (j y) with (- inject_Z (fy_m y)) by lra.
    field. lra.
Qed.

Lemma metrics_spec_witness :
  macaulay_duration priced_zero = NaN /\
  convexity_flat priced_zero (mkFlatYield 0.04 2) = Ok NaN /\
  macaulay_duration priced_110 =
    Fin (Qsum (map (fun r => t (row r) * pv r) priced_110) / price priced_110) /\
  exists v, convexity_flat priced_110 (mkFlatYield 0.04 2) = Ok v.
Proof.
  assert (Hne : ~ price priced_110 == 0) by (vm_compute; discriminate).
  split; [|split; [|split]].
  - apply (proj1 (metrics_spec priced_zero (mkFlatYield 0.04 2))). reflexivity.
  - apply (proj1 (metrics_spec priced_zero (mkFlatYield 0.04 2))). reflexivity.
  - apply (proj2 (metrics_spec priced_110 (mkFlatYield 0.04 2)) Hne).
  - destruct (proj2 (proj2 (metrics_spec priced_110 (mkFlatYield 0.04 2)) Hne)
                eq_refl) as [v [Hv _]].
    now exists v.
Defined.

Lemma Qabs_tiny_nonzero (y : Q) : tiny <= Qabs y -> ~ y == 0.
Proof.
  intros H E. rewrite E in H. change (Qabs 0) with 0 in H.
  assert (0 < tiny) by reflexivity. lra.
Qed.

(** ** Effective duration and convexity *)

Section Analytics.

Variable fpow : Q -> Q -> option Q.

Lemma effective_unfold (bond : BondSpec) (curve : YieldCurve) (bump_bp : Q)
    (stub : bool) (cf : list Row) (cf_base cf_up cf_dn : list PRow) :
  valid_curve curve ->
  cashflows bond stub = Ok cf ->
  price_from_curve fpow cf curve = Ok cf_base ->
  price_from_curve fpow cf (bumped_parallel curve bump_bp) = Ok cf_up ->
  price_from_curve fpow cf (bumped_parallel curve (- bump_bp)) = Ok cf_dn ->
  effective_duration_convexity fpow bond curve bump_bp stub =
  (let base := price cf_base in
   let up := price cf_up in
   let dn := price cf_dn in
   let dy := bump_bp / 10000 in
   eff_dur <- pydiv (dn - up) (2 * base * dy) ;;
   eff_conv <- pydiv (up + dn - 2 * base) (base * dy * dy) ;;
   Ok (mkEffResult base eff_dur eff_conv)).
Proof.
  intros Hv Hcf Hb Hu Hd. unfold effective_duration_convexity.
  rewrite Hcf. cbn [bind]. rewrite Hb. cbn [bind].
  rewrite !bump_parallel_ok by trivial. cbn [bind].
  fold (bumped_parallel curve bump_bp). rewrite Hu. cbn [bind].
  fold (bumped_parallel curve (- bump_bp)). rewrite Hd. reflexivity.
Qed.

(** C6, amended.  When the schedule of the bond exists and the three
    pricings (base curve, curve bumped by [+bump_bp], curve bumped by
    [-bump_bp]) succeed, then, with [dy = bump_bp/10000], if both
    divisors [2 * P_base * dy] and [P_base * dy * dy] are at least
    [1e-300] in absolute value (so that neither is 0, also after
    rounding), [effective_duration_convexity] returns the base price,
    [(P_down - P_up) / (2 * P_base * dy)] and
    [(P_up + P_down - 2 * P_base) / (P_base * dy * dy)].  For the bump
    size 0 it raises [ZeroDivisionError]
    (see [effective_duration_convexity_counterexample]). *)
Theorem effective_duration_convexity_spec
    (bond : BondSpec) (curve : YieldCurve) (bump_bp : Q) (stub : bool)
    (cf : list Row) (cf_base cf_up cf_dn : list PRow)
    (Hv : valid_curve curve)
    (Hcf : cashflows bond stub = Ok cf)
    (Hb : price_from_curve fpow cf curve = Ok cf_base)
    (Hu : price_from_curve fpow cf (bumped_parallel curve bump_bp) = Ok cf_up)
    (Hd : price_from_curve fpow cf (bumped_parallel curve (- bump_bp)) = Ok cf_dn)
    (Hdur : tiny <= Qabs (2 * price cf_base * (bump_bp / 10000)))
    (Hconv : tiny <= Qabs (price cf_base * (bump_bp / 10000) * (bump_bp / 10000))) :
  let P_base := price cf_base in
  let P_up := price cf_up in
  let P_down := price cf_dn in
  let dy := bump_bp / 10000 in
  bump_parallel curve bump_bp = Ok (bumped_parallel curve bump_bp) /\
  bump_parallel curve (- bump_bp) = Ok (bumped_parallel curve (- bump_bp)) /\
  effective_duration_convexity fpow bond curve bump_bp stub =
  Ok (mkEffResult P_base
        ((P_down - P_up) / (2 * P_base * dy))
        ((P_up + P_down - 2 * P_base) / (P_base * dy * dy))).
Proof.
  intros P_base P_up P_down dy.
  split; [now apply bump_parallel_ok|]. split; [now apply bump_parallel_ok|].
  rewrite (effective_unfold bond curve bump_bp stub cf cf_base cf_up cf_dn)
    by trivial.
  cbv zeta. fold P_base P_up P_down dy.
  rewrite pydiv_ok by now apply Qabs_tiny_nonzero.
  rewrite pydiv_ok by now apply Qabs_tiny_nonzero.
  reflexivity.
Qed.

(** With the bump size 0 the division that gives the effective
    duration raises. *)
Lemma effective_duration_convexity_zero
    (bond : BondSpec) (curve : YieldCurve) (bump_bp : Q) (stub : bool)
    (cf : list Row) (cf_base cf_up cf_dn : list PRow) :
  valid_curve curve ->
  cashflows bond stub = Ok cf ->
  price_from_curve fpow cf curve = Ok cf_base ->
  price_from_curve fpow cf (bumped_parallel curve bump_bp) = Ok cf_up ->
  price_from_curve fpow cf (bumped_parallel curve (- bump_bp)) = Ok cf_dn ->
  bump_bp == 0 ->
  effective_duration_convexity fpow bond curve bump_bp stub =
  Raise (ZeroDivisionError "float division by zero").
Proof.
  intros Hv Hcf Hb Hu Hd Hz.
  rewrite (effective_unfold bond curve bump_bp stub cf cf_base cf_up cf_dn)
    by trivial.
  cbv zeta. rewrite pydiv_zero; [reflexivity|].
  rewrite Hz. unfold Qdiv. ring.
Qed.

End Analytics.

Lemma effective_duration_convexity_spec_witness :
  valid_curve curve3 /\
  effective_duration_convexity Qpow_floor bond_5y curve3 50 true =
  Ok (mkEffResult (price cf_5y_base)
        ((price cf_5y_dn - price cf_5y_up) / (2 * price cf_5y_base * (50 / 10000)))
        ((price cf_5y_up + price cf_5y_dn - 2 * price cf_5y_base)
         / (price cf_5y_base * (50 / 10000) * (50 / 10000)))).
Proof.
  split; [reflexivity|].
  apply (effective_duration_convexity_spec Qpow_floor bond_5y curve3 50 true
           cf_5y cf_5y_base cf_5y_up cf_5y_dn);
    try (vm_compute; reflexivity); qconst.
Defined.

(** The claim C6 as stated fails for the bump size 0: [dy] is 0 and the
    division that gives the effective duration raises. *)
Lemma effective_duration_convexity_counterexample :
  valid_bond bond_5y /\ valid_curve curve3 /\
  effective_duration_convexity Qpow_floor bond_5y curve3 0 true =
  Raise (ZeroDivisionError "float division by zero").
Proof.
  split; [valid_bond_tac|].
  split; vm_compute; reflexivity.
Qed.

(** ** Key-rate durations *)

Lemma add_at_length (l : list Q) (d : Q) :
  forall i, length (add_at l i d) = length l.
Proof.
  induction l as [|r l IH]; intros [|i]; simpl; trivial. now rewrite IH.
Qed.

Lemma add_at_nth (l : list Q) (d : Q) :
  forall i n, (i < length l)%nat ->
  nth n (add_at l i d) 0 = if (n =? i)%nat then nth n l 0 + d else nth n l 0.
Proof.
  induction l as [|r l IH]; intros i n Hi; [simpl in Hi; lia|].
  destruct i as [|i], n as [|n]; simpl; trivial.
  apply IH. simpl in Hi. lia.
Qed.

Lemma bump_key_ok (c : YieldCurve) (i : nat) (bp : Q) :
  valid_curve c -> (i < length (rates c))%nat ->
  bump_key c (Z.of_nat i) bp = Ok (bumped_key c i bp).
Proof.
  intros Hv Hi. unfold bump_key.
  replace (0 <=? Z.of_nat i)%Z with true by (symmetry; apply Z.leb_le; lia).
  replace (Z.of_nat i <? Z.of_nat (length (rates c)))%Z with true
    by (symmetry; apply Z.ltb_lt; lia).
  cbn [andb negb]. rewrite Nat2Z.id.
  apply valid_curve_rates; trivial. apply add_at_length.
Qed.

Lemma mapM_map {A B : Type} (f : A -> result B) (g : A -> B) (l : list A) :
  (forall x, In x l -> f x = Ok (g x)) -> mapM f l = Ok (map g l).
Proof.
  induction l as [|a l IH]; intro H; [reflexivity|].
  cbn [mapM map]. rewrite (H a) by now left. cbn [bind].
  rewrite IH by (intros x Hx; apply H; now right). reflexivity.
Qed.

Lemma mapM_raise_head {A B : Type} (f : A -> result B) (a : A) (l : list A)
    (e : exn) :
  f a = Raise e -> mapM f (a :: l) = Raise e.
Proof. intro H. cbn [mapM]. now rewrite H. Qed.

Lemma enumerate_In {A : Type} (l : list A) (d : A) (it : Z * A) :
  In it (enumerate l) ->
  exists i, (i < length l)%nat /\ it = (Z.of_nat i, nth i l d).
Proof.
  unfold enumerate. intro H.
  destruct (In_nth _ _ (0%Z, d) H) as (n & Hn & E).
  rewrite length_combine, length_map, length_seq, Nat.min_id in Hn.
  exists n. split; trivial. rewrite <- E.
  rewrite combine_nth by now rewrite length_map, length_seq.
  f_equal. change 0%Z with (Z.of_nat 0).
  rewrite map_nth. now rewrite seq_nth.
Qed.

Lemma enumerate_nth {A : Type} (l : list A) (d : A) (i : nat) :
  (i < length l)%nat ->
  nth i (enumerate l) (0%Z, d) = (Z.of_nat i, nth i l d).
Proof.
  intro Hi. unfold enumerate.
  rewrite combine_nth by now rewrite length_map, length_seq.
  f_equal. change 0%Z with (Z.of_nat 0).
  rewrite map_nth. now rewrite seq_nth.
Qed.

Lemma enumerate_snd {A : Type} (l : list A) : map snd (enumerate l) = l.
Proof.
  unfold enumerate.
  assert (H : forall (xs : list Z) (ys : list A),
             length xs = length ys -> map snd (combine xs ys) = ys).
  { induction xs as [|x xs IH]; intros [|y ys] E; simpl in *; try congruence.
    f_equal. apply IH. lia. }
  apply H. now rewrite length_map, length_seq.
Qed.

Lemma enumerate_length {A : Type} (l : list A) :
  length (enumerate l) = length l.
Proof.
  unfold enumerate. now rewrite length_combine, length_map, length_seq, Nat.min_id.
Qed.

Section KeyRate.

Variable fpow : Q -> Q -> option Q.

Lemma krd_step_ok (cf : list Row) (curve : YieldCurve) (bump_bp base dy : Q)
    (i : nat) (ten : Q) (cf_b : list PRow) :
  valid_curve curve -> (i < length (pillars curve))%nat ->
  price_from_curve fpow cf (bumped_key curve i bump_bp) = Ok cf_b ->
  ~ base * dy == 0 ->
  krd_step fpow cf curve bump_bp base dy (Z.of_nat i, ten) =
  Ok (mkKrdRow ten (- (price cf_b - base) / (base * dy))).
Proof.
  intros Hv Hi Hp Hnz. unfold krd_step. cbn [fst snd].
  destruct (valid_curve_inv curve Hv) as (Hlen & _).
  rewrite bump_key_ok by (trivial; lia). cbn [bind].
  rewrite Hp. cbn [bind]. now rewrite pydiv_ok.
Qed.

(** C7, amended.  When the schedule of the bond exists, the pricing on
    the base curve and on each curve with one pillar bumped succeeds, and
    [P_base * dy] is not 0, with [dy = bump_bp/10000],
    [key_rate_durations] returns one row per pillar of the curve, in the
    order of the pillars; row [i] holds pillar [i] and
    [-(P_i - P_base) / (P_base * dy)], where [P_i] is the price on the
    curve returned by [bump_key i], whose rate at [i] is the old one plus
    [dy] and whose other rates, pillars and compounding are unchanged. *)
Theorem key_rate_durations_spec
    (bond : BondSpec) (curve : YieldCurve) (bump_bp : Q) (stub : bool)
    (cf : list Row) (cf_base : list PRow)
    (Hv : valid_curve curve)
    (Hcf : cashflows bond stub = Ok cf)
    (Hb : price_from_curve fpow cf curve = Ok cf_base)
    (Hk : forall i, (i < length (pillars curve))%nat ->
          exists cf_b,
            price_from_curve fpow cf (bumped_key curve i bump_bp) = Ok cf_b)
    (Hnz : ~ price cf_base * (bump_bp / 10000) == 0) :
  let P_base := price cf_base in
  let dy := bump_bp / 10000 in
  exists res,
    key_rate_durations fpow bond curve bump_bp stub = Ok res /\
    length res = length (pillars curve) /\
    map pillar res = pillars curve /\
    forall i, (i < length (pillars curve))%nat ->
      exists c_i cf_i,
        bump_key curve (Z.of_nat i) bump_bp = Ok c_i /\
        pillars c_i = pillars curve /\ m c_i = m curve /\
        (forall n, nth n (rates c_i) 0 =
                   if (n =? i)%nat then nth n (rates curve) 0 + dy
                   else nth n (rates curve) 0) /\
        price_from_curve fpow cf c_i = Ok cf_i /\
        pillar (nth i res krd0) = nth i (pillars curve) 0 /\
        krd (nth i res krd0) = - (price cf_i - P_base) / (P_base * dy).
Proof.
  intros P_base dy.
  destruct (valid_curve_inv curve Hv) as (Hlen & _).
  set (g := fun it : Z * Q =>
              mkKrdRow (snd it)
                (- (price_or_zero
                      (price_from_curve fpow cf
                         (bumped_key curve (Z.to_nat (fst it)) bump_bp))
                    - P_base) / (P_base * dy))).
  exists (map g (enumerate (pillars curve))).
  split; [|split; [|split]].
  - unfold key_rate_durations. rewrite Hcf. cbn [bind]. rewrite Hb. cbn [bind].
    apply mapM_map. intros it Hin.
    destruct (enumerate_In _ 0 it Hin) as (i & Hi & ->).
    destruct (Hk i Hi) as [cf_b Hcfb].
    rewrite (krd_step_ok cf curve bump_bp _ _ i _ cf_b) by trivial.
    unfold g. cbn [fst snd]. rewrite Nat2Z.id, Hcfb. reflexivity.
  - now rewrite length_map, enumerate_length.
  - rewrite map_map. unfold g. cbn [pillar]. apply enumerate_snd.
  - intros i Hi. destruct (Hk i Hi) as [cf_b Hcfb].
    exists (bumped_key curve i bump_bp), cf_b.
    split; [apply bump_key_ok; trivial; lia|].
    split; [reflexivity|]. split; [reflexivity|].
    split; [intro n; apply add_at_nth; lia|].
    split; [exact Hcfb|].
    rewrite (nth_indep _ krd0 (g (0%Z, 0)))
      by now rewrite length_map, enumerate_length.
    rewrite map_nth, enumerate_nth by trivial.
    unfold g. cbn [fst snd pillar krd]. rewrite Nat2Z.id, Hcfb.
    split; reflexivity.
Qed.

(** With [P_base * dy = 0] the first iteration of the loop raises. *)
Lemma key_rate_durations_zero
    (bond : BondSpec) (curve : YieldCurve) (bump_bp : Q) (stub : bool)
    (cf : list Row) (cf_base : list PRow) :
  valid_curve curve ->
  cashflows bond stub = Ok cf ->
  price_from_curve fpow cf curve = Ok cf_base ->
  (exists cf_b, price_from_curve fpow cf (bumped_key curve 0 bump_bp) = Ok cf_b) ->
  price cf_base * (bump_bp / 10000) == 0 ->
  key_rate_durations fpow bond curve bump_bp stub =
  Raise (ZeroDivisionError "float division by zero").
Proof.
  intros Hv Hcf Hb [cf_b Hcfb] Hz.
  destruct (valid_curve_inv curve Hv) as (Hlen & Hpos & _).
  unfold key_rate_durations. rewrite Hcf. cbn [bind]. rewrite Hb. cbn [bind].
  unfold enumerate.
  destruct (pillars curve) as [|p0 ps] eqn:E; [simpl in Hpos; lia|].
  cbn [length seq map combine]. apply mapM_raise_head.
  unfold krd_step. cbn [fst snd].
  rewrite (bump_key_ok curve 0 bump_bp) by (trivial; lia). cbn [bind].
  rewrite Hcfb. cbn [bind]. now rewrite pydiv_zero.
Qed.

End KeyRate.

Lemma key_rate_durations_spec_witness :
  valid_curve curve3 /\
  exists res,
    key_rate_durations Qpow_floor bond_5y curve3 50 true = Ok res /\
    length res = length (pillars curve3) /\
    map pillar res = pillars curve3.
Proof.
  split; [reflexivity|].
  assert (Hcf : cashflows bond_5y true = Ok cf_5y) by (vm_compute; reflexivity).
  assert (Hb : price_from_curve Qpow_floor cf_5y curve3 = Ok cf_5y_base)
    by (vm_compute; reflexivity).
  assert (Hk : forall i, (i < length (pillars curve3))%nat ->
            exists cf_b,
              price_from_curve Qpow_floor cf_5y (bumped_key curve3 i 50) = Ok cf_b).
  { intros i Hi.
    destruct i as [|[|[|i]]]; [| | |simpl in Hi; lia];
      eexists; vm_compute; reflexivity. }
  assert (Hnz : ~ price cf_5y_base * (50 / 10000) == 0) by qconst.
  destruct (key_rate_durations_spec Qpow_floor bond_5y curve3 50 true
              cf_5y cf_5y_base eq_refl Hcf Hb Hk Hnz)
    as (res & Hres & Hlen & Hmap & _).
  exists res. split; [exact Hres | split; [exact Hlen | exact Hmap]].
Defined.

(** The claim C7 as stated fails for the bump size 0: [dy] is 0 and the
    division that gives the first key-rate duration raises. *)
Lemma key_rate_durations_counterexample :
  valid_bond bond_5y /\ valid_curve curve3 /\
  key_rate_durations Qpow_floor bond_5y curve3 0 true =
  Raise (ZeroDivisionError "float division by zero").
Proof.
  split; [valid_bond_tac|].
  split; vm_compute; reflexivity.
Qed.

(** ** The constructor *)

Lemma post_init_result (c : YieldCurve) :
  post_init c = Ok tt \/ exists msg, post_init c = Raise (ValueError msg).
Proof.
  unfold post_init.
  destruct (negb _); [right; eauto|].
  destruct (_ <? 1)%nat; [right; eauto|].
  destruct (existsb _ (pillars c)); [right; eauto|].
  destruct (existsb _ (seq _ _)); [right; eauto|].
  destruct (_ <=? 0)%Z; [right; eauto | now left].
Qed.

(** X1. The constructor returns the curve exactly when the two sequences
    have the same length, there is a pillar, the pillars are positive and
    strictly increasing and [m] is positive; in every other case it
    raises a [ValueError]. *)
Theorem YieldCurve_new_spec (ps rs : list Q) (m0 : Z) :
  (YieldCurve_new ps rs m0 = Ok (mkYieldCurve ps rs m0) <->
   curve_conditions ps rs m0) /\
  (~ curve_conditions ps rs m0 ->
   exists msg, YieldCurve_new ps rs m0 = Raise (ValueError msg)).
Proof.
  assert (Hiff : YieldCurve_new ps rs m0 = Ok (mkYieldCurve ps rs m0) <->
                 curve_conditions ps rs m0).
  { split.
    - intro H. unfold YieldCurve_new in H.
      destruct (post_init (mkYieldCurve ps rs m0)) as [[]|e] eqn:E;
        [|discriminate].
      exact (valid_curve_inv _ E).
    - intros (H1 & H2 & H3 & H4 & H5).
      pose proof (valid_curve_intro ps rs m0 H1 H2 H3 H4 H5) as Hv.
      unfold YieldCurve_new. unfold valid_curve in Hv. now rewrite Hv. }
  split; [exact Hiff|].
  intro Hn. unfold YieldCurve_new.
  destruct (post_init_result (mkYieldCurve ps rs m0)) as [E|[msg E]].
  - exfalso. apply Hn. exact (valid_curve_inv _ E).
  - exists msg. now rewrite E.
Qed.

Lemma YieldCurve_new_spec_witness :
  exists msg, YieldCurve_new [2; 1] [0.01; 0.02] 2 = Raise (ValueError msg).
Proof.
  apply (proj2 (YieldCurve_new_spec [2; 1] [0.01; 0.02] 2)).
  intros (_ & _ & _ & H & _). specialize (H 0%nat ltac:(simpl; lia)).
  revert H. qconst.
Defined.

(** ** More on [zero_rate] *)

Lemma bracket_exists (l : list Q) (t0 : Q) :
  (forall i, (S i < length l)%nat -> nth i l 0 < nth (S i) l 0) ->
  forall n, (n < length l)%nat -> nth 0 l 0 < t0 -> t0 <= nth n l 0 ->
  exists i, (S i <= n)%nat /\ nth i l 0 < t0 /\ t0 <= nth (S i) l 0.
Proof.
  intros Hinc. induction n as [|n IH]; intros Hn H0 Hle.
  - lra.
  - destruct (Qlt_le_dec (nth n l 0) t0) as [Hlt|Hge].
    + exists n. repeat split; trivial.
    + destruct (IH ltac:(lia) H0 Hge) as (i & Hi & Hlo & Hhi).
      exists i. repeat split; trivial. lia.
Qed.

(** The three ways in which [zero_rate] returns on a valid curve. *)
Lemma zero_rate_cases (c : YieldCurve) (t0 : Q) :
  valid_curve c ->
  (t0 <= nth 0 (pillars c) 0 /\ zero_rate c t0 = Ok (nth 0 (rates c) 0)) \/
  (last (pillars c) 0 <= t0 /\ zero_rate c t0 = Ok (last (rates c) 0)) \/
  (exists i, (S i < length (pillars c))%nat /\
             nth i (pillars c) 0 < t0 /\ t0 <= nth (S i) (pillars c) 0 /\
             t0 < last (pillars c) 0 /\
             zero_rate c t0 = Ok (interp c t0 i)).
Proof.
  intro Hv. destruct (valid_curve_inv c Hv) as (Hlen & Hpos & _ & Hinc & _).
  destruct (Qlt_le_dec (nth 0 (pillars c) 0) t0) as [H0|H0].
  2:{ left. split; trivial. now apply zero_rate_below. }
  destruct (Qlt_le_dec t0 (last (pillars c) 0)) as [Hl|Hl].
  2:{ right. left. split; trivial. now apply zero_rate_above. }
  right. right.
  destruct (bracket_exists (pillars c) t0 Hinc (length (pillars c) - 1))
    as (i & Hi & Hlo & Hhi); trivial; try lia.
  { rewrite <- last_as_nth. now apply Qlt_le_weak. }
  exists i. repeat split; trivial; try lia.
  apply zero_rate_segment; trivial. lia.
Qed.

(** ** Flat curves *)

Lemma nth_const (x : Q) (ps : list Q) (i : nat) :
  (i < length ps)%nat -> nth i (map (fun _ => x) ps) 0 = x.
Proof.
  revert i. induction ps as [|p ps IH]; intros i Hi; [simpl in Hi; lia|].
  destruct i as [|i]; [reflexivity|]. simpl. apply IH. simpl in Hi. lia.
Qed.

(** X2. For a yield with [m > 0] and positive, strictly increasing
    pillars, [build_flat_curve] returns a curve on these pillars whose
    zero rate equals [y.j] at every tenor: where [zero_rate]
    interpolates, it evaluates [j + w * (j - j)]. *)
Theorem build_flat_curve_rate (y : FlatYield) (ps : list Q) (t0 : Q)
    (Hm : (0 < fy_m y)%Z)
    (Hne : (1 <= length ps)%nat)
    (Hpos : forall x, In x ps -> 0 < x)
    (Hinc : forall i, (S i < length ps)%nat -> nth i ps 0 < nth (S i) ps 0) :
  exists c r,
    build_flat_curve y ps = Ok c /\
    pillars c = ps /\ m c = fy_m y /\ length (rates c) = length ps /\
    zero_rate c t0 = Ok r /\ r == j y.
Proof.
  set (c := mkYieldCurve ps (map (fun _ => j y) ps) (fy_m y)).
  assert (Hv : valid_curve c).
  { apply valid_curve_intro; trivial. now rewrite length_map. }
  assert (Hr : exists r, zero_rate c t0 = Ok r /\ r == j y).
  { destruct (zero_rate_cases c t0 Hv)
      as [[_ E]|[[_ E]|(i & Hi & _ & _ & _ & E)]];
      rewrite E; eexists; (split; [reflexivity|]).
    - cbn [rates c]. rewrite nth_const by lia. reflexivity.
    - rewrite last_as_nth. cbn [rates c]. rewrite length_map.
      rewrite nth_const by lia. reflexivity.
    - unfold interp. cbn [rates pillars c] in *.
      rewrite !nth_const by lia.
      setoid_replace (j y - j y) with 0 by ring. ring. }
  destruct Hr as (r & Hr & Hj).
  exists c, r. split.
  { unfold build_flat_curve, YieldCurve_new. fold c.
    unfold valid_curve in Hv. now rewrite Hv. }
  split; [reflexivity|]. split; [reflexivity|].
  split; [apply length_map|]. split; [exact Hr | exact Hj].
Qed.

Lemma build_flat_curve_rate_witness :
  exists c r,
    build_flat_curve (mkFlatYield 0.04 2) default_pillars = Ok c /\
    pillars c = default_pillars /\ m c = 2%Z /\
    length (rates c) = length default_pillars /\
    zero_rate c 3.5 = Ok r /\ r == 0.04.
Proof.
  apply (build_flat_curve_rate (mkFlatYield 0.04 2) default_pillars 3.5).
  - reflexivity.
  - simpl. lia.
  - intros x H. simpl in H.
    repeat (destruct H as [<-|H]; [reflexivity|]). contradiction.
  - intros i Hi. simpl in Hi.
    do 6 (destruct i as [|i]; [reflexivity|]). lia.
Defined.

(** ** [bump_key] *)

(** X3. On a valid curve [bump_key] raises [IndexError] exactly for an
    index below 0 or not below the number of rates (a negative index does
    not count from the end), and otherwise returns the curve with the
    same pillars and compounding whose rate at that index alone is
    increased by [bp/10000]. *)
Theorem bump_key_spec (c : YieldCurve) (idx : Z) (bp : Q)
    (Hv : valid_curve c) :
  ((idx < 0 \/ Z.of_nat (length (rates c)) <= idx)%Z ->
   bump_key c idx bp = Raise (IndexError "idx out of range")) /\
  ((0 <= idx < Z.of_nat (length (rates c)))%Z ->
   exists c',
     bump_key c idx bp = Ok c' /\
     pillars c' = pillars c /\ m c' = m c /\
     length (rates c') = length (rates c) /\
     forall n, nth n (rates c') 0 =
               if (n =? Z.to_nat idx)%nat then nth n (rates c) 0 + bp / 10000
               else nth n (rates c) 0).
Proof.
  split.
  - intro H. unfold bump_key.
    replace ((0 <=? idx)%Z && (idx <? Z.of_nat (length (rates c)))%Z)%bool
      with false; [reflexivity|].
    symmetry. apply andb_false_iff.
    destruct H; [left; apply Z.leb_gt | right; apply Z.ltb_ge]; lia.
  - intros [H0 H1]. exists (bumped_key c (Z.to_nat idx) bp).
    split.
    + rewrite <- (Z2Nat.id idx H0) at 1. apply bump_key_ok; trivial. lia.
    + split; [reflexivity|]. split; [reflexivity|].
      split; [apply add_at_length|].
      intro n. apply add_at_nth. lia.
Qed.

Lemma bump_key_spec_witness :
  bump_key curve3 (-1) 50 = Raise (IndexError "idx out of range") /\
  exists c', bump_key curve3 2 50 = Ok c' /\ pillars c' = pillars curve3.
Proof.
  split.
  - apply (proj1 (bump_key_spec curve3 (-1) 50 eq_refl)). left. reflexivity.
  - destruct (proj2 (bump_key_spec curve3 2 50 eq_refl)) as (c' & H & Hp & _).
    + split; [discriminate | reflexivity].
    + exists c'. now split.
Defined.

Lemma add_at_cons_S (r : Q) (l : list Q) (i : nat) (d : Q) :
  add_at (r :: l) (S i) d = r :: add_at l i d.
Proof. reflexivity. Qed.

Lemma add_at_all (d : Q) (l : list Q) :
  forall pre,
  fold_left (fun acc i => add_at acc i d) (seq (length pre) (length l)) (pre ++ l)
  = pre ++ map (fun r => r + d) l.
Proof.
  induction l as [|r l IH]; intro pre; [reflexivity|].
  cbn [length seq fold_left map].
  assert (E : add_at (pre ++ r :: l) (length pre) d = pre ++ (r + d) :: l).
  { clear IH. induction pre as [|x pre IHp]; [reflexivity|].
    cbn [app length]. rewrite add_at_cons_S. now rewrite IHp. }
  rewrite E.
  replace (pre ++ (r + d) :: l) with ((pre ++ [r + d]) ++ l)
    by now rewrite <- app_assoc.
  replace (S (length pre)) with (length (pre ++ [r + d]))
    by (rewrite length_app; simpl; lia).
  rewrite IH. now rewrite <- app_assoc.
Qed.

Lemma bump_keys_fold (c : YieldCurve) (bp : Q) (idxs : list nat) :
  valid_curve c ->
  (forall i, In i idxs -> (i < length (rates c))%nat) ->
  bump_keys c idxs bp =
  Ok (mkYieldCurve (pillars c)
        (fold_left (fun acc i => add_at acc i (bp / 10000)) idxs (rates c))
        (m c)).
Proof.
  revert c. induction idxs as [|i idxs IH]; intros c Hv Hin.
  - destruct c; reflexivity.
  - cbn [bump_keys fold_left].
    rewrite bump_key_ok by (trivial; apply Hin; now left). cbn [bind].
    rewrite IH.
    + reflexivity.
    + destruct (valid_curve_inv c Hv) as (H1 & H2 & H3 & H4 & H5).
      apply valid_curve_intro; trivial. now rewrite add_at_length.
    + intros i' Hi'. cbn [rates bumped_key]. rewrite add_at_length.
      apply Hin. now right.
Qed.

(** X4. Bumping every pillar in turn is a parallel bump: on a valid
    curve, [bump_key] applied at the indices [0, 1, ..., n-1] one after
    the other returns the same curve as [bump_parallel]. *)
Theorem bump_keys_parallel (c : YieldCurve) (bp : Q) (Hv : valid_curve c) :
  bump_keys c (seq 0 (length (rates c))) bp = bump_parallel c bp.
Proof.
  rewrite bump_keys_fold; trivial.
  2:{ intros i Hi. apply in_seq in Hi. lia. }
  rewrite bump_parallel_ok by trivial. do 2 f_equal.
  apply (add_at_all (bp / 10000) (rates c) []).
Qed.

Lemma bump_keys_parallel_witness :
  bump_keys curve3 (seq 0 (length (rates curve3))) 50 = bump_parallel curve3 50.
Proof. apply (bump_keys_parallel curve3 50). reflexivity. Defined.

(** ** Tenor-dependent shocks *)

Lemma steepener_cases (t0 a b s l : Q) :
  (t0 <= a /\ steepener_shock_bp t0 a b s l = Ok s) \/
  (a < t0 /\ b <= t0 /\ steepener_shock_bp t0 a b s l = Ok l) \/
  (a < t0 /\ t0 < b /\
   steepener_shock_bp t0 a b s l = Ok (s + (t0 - a) / (b - a) * (l - s))).
Proof.
  unfold steepener_shock_bp.
  destruct (Qle_bool t0 a) eqn:E1.
  { left. split; trivial. now apply Qle_bool_iff. }
  apply Qle_bool_false in E1.
  destruct (Qle_bool b t0) eqn:E2.
  { right. left. repeat split; trivial. now apply Qle_bool_iff. }
  apply Qle_bool_false in E2. right. right. repeat split; trivial.
  rewrite pydiv_ok by lra. reflexivity.
Qed.

(** X5. [steepener_shock_bp] never raises, whatever its five arguments
    are: it returns [short_bp] at or below [short_end], [long_bp] at or
    above [long_start] when that lies above [short_end], and
    [short_bp + (t - short_end)/(long_start - short_end) * (long_bp - short_bp)]
    strictly between the two, the only place where it divides.  The
    closure that [make_flattener_fn] of run_scenarios.py returns is the
    same function of the tenor. *)
Theorem steepener_shock_bp_spec (t0 a b s l : Q) :
  (t0 <= a -> steepener_shock_bp t0 a b s l = Ok s) /\
  (a < t0 -> b <= t0 -> steepener_shock_bp t0 a b s l = Ok l) /\
  (a < t0 -> t0 < b ->
   steepener_shock_bp t0 a b s l = Ok (s + (t0 - a) / (b - a) * (l - s))) /\
  (exists v, steepener_shock_bp t0 a b s l = Ok v) /\
  make_flattener_fn a b s l t0 = steepener_shock_bp t0 a b s l.
Proof.
  destruct (steepener_cases t0 a b s l) as [[H E]|[(H1 & H2 & E)|(H1 & H2 & E)]];
    rewrite E; repeat split; trivial; try (intros; lra); eauto.
Qed.

Lemma steepener_shock_bp_spec_witness :
  steepener_shock_bp 6 2 10 100 30 = Ok (100 + (6 - 2) / (10 - 2) * (30 - 100)) /\
  steepener_shock_bp 1 2 10 100 30 = Ok 100 /\
  steepener_shock_bp 12 2 10 100 30 = Ok 30.
Proof.
  split; [|split].
  - apply (proj1 (proj2 (proj2 (steepener_shock_bp_spec 6 2 10 100 30)))); qconst.
  - apply (proj1 (steepener_shock_bp_spec 1 2 10 100 30)); qconst.
  - apply (proj1 (proj2 (steepener_shock_bp_spec 12 2 10 100 30))); qconst.
Defined.

Lemma nth_map_in {A B : Type} (g : A -> B) (l : list A) (i : nat) (d : A) (d' : B) :
  (i < length l)%nat -> nth i (map g l) d' = g (nth i l d).
Proof.
  intro H. rewrite (nth_indep _ d' (g d)) by now rewrite length_map.
  apply map_nth.
Qed.

Lemma combine_nth_Q (ps rs : list Q) (i : nat) :
  length ps = length rs ->
  nth i (combine ps rs) (0, 0) = (nth i ps 0, nth i rs 0).
Proof. intro H. now apply combine_nth. Qed.

Lemma apply_shock_ok (c : YieldCurve) (shock_fn : Q -> result Q) (f : Q -> Q) :
  valid_curve c ->
  (forall x, In x (pillars c) -> shock_fn x = Ok (f x)) ->
  apply_tenor_dependent_shock c shock_fn =
  Ok (mkYieldCurve (pillars c)
        (map (fun tr => snd tr + f (fst tr) / 10000)
             (combine (pillars c) (rates c)))
        (m c)).
Proof.
  intros Hv Hf. destruct (valid_curve_inv c Hv) as (Hlen & _).
  unfold apply_tenor_dependent_shock.
  rewrite (mapM_map _ (fun tr => snd tr + f (fst tr) / 10000)).
  2:{ intros [x r] Hin. cbn [fst snd].
      rewrite Hf by (eapply in_combine_l; eauto). reflexivity. }
  cbn [bind]. apply valid_curve_rates; trivial.
  rewrite length_map, length_combine, Hlen. apply Nat.min_id.
Qed.

(** X6. On a valid curve, with a shock function that returns [f(t)] at
    every pillar [t], [apply_tenor_dependent_shock] returns a curve with
    the same pillars and compounding whose rate at each pillar is the old
    rate plus [f(pillar)/10000]; with a constant shock [bp] it returns the
    same curve as [bump_parallel]. *)
Theorem apply_tenor_dependent_shock_spec (c : YieldCurve)
    (shock_fn : Q -> result Q) (f : Q -> Q)
    (Hv : valid_curve c)
    (Hf : forall x, In x (pillars c) -> shock_fn x = Ok (f x)) :
  (exists c',
     apply_tenor_dependent_shock c shock_fn = Ok c' /\
     pillars c' = pillars c /\ m c' = m c /\
     length (rates c') = length (rates c) /\
     forall i, (i < length (rates c))%nat ->
       nth i (rates c') 0 = nth i (rates c) 0 + f (nth i (pillars c) 0) / 10000) /\
  (forall bp, (forall x, f x = bp) ->
     apply_tenor_dependent_shock c shock_fn = bump_parallel c bp).
Proof.
  destruct (valid_curve_inv c Hv) as (Hlen & _).
  rewrite (apply_shock_ok c shock_fn f Hv Hf). split.
  - eexists. split; [reflexivity|]. cbn [pillars rates m].
    split; [reflexivity|]. split; [reflexivity|].
    split.
    + rewrite length_map, length_combine, Hlen. apply Nat.min_id.
    + intros i Hi.
      rewrite (nth_map_in _ _ i (0, 0))
        by (rewrite length_combine, Hlen, Nat.min_id; exact Hi).
      rewrite combine_nth_Q by trivial. reflexivity.
  - intros bp Hbp. rewrite bump_parallel_ok by trivial. do 2 f_equal.
    clear Hf. revert Hlen. generalize (rates c). generalize (pillars c).
    induction l as [|x l IH]; intros [|r rs] E; simpl in *; try congruence.
    rewrite Hbp. f_equal. apply IH. lia.
Qed.

Lemma apply_tenor_dependent_shock_spec_witness :
  apply_tenor_dependent_shock curve3 (fun _ => Ok 50) = bump_parallel curve3 50.
Proof.
  apply (proj2 (apply_tenor_dependent_shock_spec curve3 (fun _ => Ok 50)
                  (fun _ => 50) eq_refl (fun _ _ => eq_refl))).
  reflexivity.
Defined.

(** X7. The steepener can be applied to every valid curve, whatever its
    four parameters are: [apply_tenor_dependent_shock] returns a curve
    with the same pillars and compounding, whose rate at each pillar is
    the old rate plus the shock at that pillar over 10000. *)
Theorem apply_steepener_ok (c : YieldCurve) (a b s l : Q)
    (Hv : valid_curve c) :
  exists c',
    apply_tenor_dependent_shock c (fun x => steepener_shock_bp x a b s l) = Ok c' /\
    pillars c' = pillars c /\ m c' = m c /\
    length (rates c') = length (rates c) /\
    forall i, (i < length (rates c))%nat ->
      exists v,
        steepener_shock_bp (nth i (pillars c) 0) a b s l = Ok v /\
        nth i (rates c') 0 = nth i (rates c) 0 + v / 10000.
Proof.
  set (f := fun x => match steepener_shock_bp x a b s l with
                     | Ok v => v
                     | Raise _ => 0
                     end).
  assert (Hf : forall x, steepener_shock_bp x a b s l = Ok (f x)).
  { intro x. unfold f.
    destruct (steepener_cases x a b s l) as [[_ E]|[(_ & _ & E)|(_ & _ & E)]];
      now rewrite E. }
  destruct (valid_curve_inv c Hv) as (Hlen & _).
  eexists. split.
  { apply (apply_shock_ok c _ f Hv). intros x _. apply Hf. }
  cbn [pillars rates m].
  split; [reflexivity|]. split; [reflexivity|]. split.
  - rewrite length_map, length_combine, Hlen. apply Nat.min_id.
  - intros i Hi. exists (f (nth i (pillars c) 0)). split; [apply Hf|].
    rewrite (nth_map_in _ _ i (0, 0))
      by (rewrite length_combine, Hlen, Nat.min_id; exact Hi).
    rewrite combine_nth_Q by trivial. reflexivity.
Qed.

Lemma apply_steepener_ok_witness :
  exists c',
    apply_tenor_dependent_shock curve3
      (fun x => steepener_shock_bp x 2 10 100 30) = Ok c' /\
    pillars c' = pillars curve3.
Proof.
  destruct (apply_steepener_ok curve3 2 10 100 30 eq_refl)
    as (c' & E & Hp & _).
  exists c'. split; [exact E | exact Hp].
Defined.

(** ** Errors of [cashflows] *)

(** X8. [cashflows] checks its bond before anything else: a
    non-positive face value or maturity, then a non-positive coupon
    frequency, then a negative coupon rate each raise their own
    [ValueError], with or without stub. *)
Theorem cashflows_invalid (b : BondSpec) (stub : bool) :
  (fv b <= 0 \/ maturity b <= 0 ->
   cashflows b stub = Raise (ValueError "fv and maturity must be positive")) /\
  (0 < fv b -> 0 < maturity b -> (coupon_freq b <= 0)%Z ->
   cashflows b stub =
   Raise (ValueError "coupon_freq p must be positive integer")) /\
  (0 < fv b -> 0 < maturity b -> (0 < coupon_freq b)%Z -> coupon_rate b < 0 ->
   cashflows b stub = Raise (ValueError "coupon_rate cannot be negative")).
Proof.
  unfold cashflows. split; [|split].
  - intros [H|H]; apply Qle_bool_iff in H; rewrite H; [reflexivity|].
    now rewrite orb_true_r.
  - intros H1 H2 H3.
    rewrite (proj2 (Qle_bool_false _ _) H1), (proj2 (Qle_bool_false _ _) H2).
    cbn [orb]. now rewrite (proj2 (Z.leb_le _ _) H3).
  - intros H1 H2 H3 H4.
    rewrite (proj2 (Qle_bool_false _ _) H1), (proj2 (Qle_bool_false _ _) H2).
    cbn [orb]. rewrite (proj2 (Z.leb_gt _ _) H3).
    now rewrite (proj2 (Qltb_true _ _) H4).
Qed.

Lemma cashflows_invalid_witness :
  cashflows (mkBondSpec 100 0.05 0 2) true =
    Raise (ValueError "fv and maturity must be positive") /\
  cashflows (mkBondSpec 100 0.05 5 0) true =
    Raise (ValueError "coupon_freq p must be positive integer") /\
  cashflows (mkBondSpec 100 (-0.05) 5 2) false =
    Raise (ValueError "coupon_rate cannot be negative").
Proof.
  split; [|split].
  - apply (proj1 (cashflows_invalid (mkBondSpec 100 0.05 0 2) true)).
    right. qconst.
  - apply (proj1 (proj2 (cashflows_invalid (mkBondSpec 100 0.05 5 0) true)));
      qconst.
  - apply (proj2 (proj2 (cashflows_invalid (mkBondSpec 100 (-0.05) 5 2) false)));
      qconst.
Defined.

(** ** Invariants of a schedule *)

Lemma build_rows_inv (fv0 c T : Q) (times : list Q) :
  forall i t_prev rows,
  build_rows fv0 c T i t_prev times = Ok rows ->
  increasing_from t_prev times /\ rows = rows_of fv0 c T i t_prev times.
Proof.
  induction times as [|t0 times IH]; intros i t_prev rows H.
  - simpl in H. injection H as <-. now split.
  - cbn [build_rows] in H.
    destruct (Qle_bool (t0 - t_prev) 0) eqn:E; [discriminate|].
    apply Qle_bool_false in E.
    destruct (build_rows fv0 c T (i + 1) t0 times) as [rows'|e] eqn:E';
      [|discriminate].
    cbn [bind] in H. injection H as <-.
    destruct (IH _ _ _ E') as [Hinc ->].
    split; [split; [lra | exact Hinc] | reflexivity].
Qed.

Lemma cashflows_inv (b : BondSpec) (stub : bool) (rows : list Row) :
  cashflows b stub = Ok rows ->
  valid_bond b /\
  exists times,
    schedule_times b stub = Ok times /\ times <> [] /\
    increasing_from 0 times /\
    rows = rows_of (fv b) (coupon_rate b) (maturity b) 1 0 times.
Proof.
  unfold cashflows. intro H.
  destruct (Qle_bool (fv b) 0) eqn:E1; [discriminate|].
  destruct (Qle_bool (maturity b) 0) eqn:E2; [discriminate|].
  cbn [orb] in H.
  destruct (coupon_freq b <=? 0)%Z eqn:E3; [discriminate|].
  destruct (Qltb (coupon_rate b) 0) eqn:E4; [discriminate|].
  destruct (schedule_times b stub) as [times|e] eqn:E5; [|discriminate].
  cbn [bind] in H. destruct (build_rows_inv _ _ _ _ _ _ _ H) as [Hinc ->].
  split.
  - repeat split.
    + now apply Qle_bool_false.
    + now apply Qle_bool_false.
    + now apply Z.leb_gt.
    + now apply Qltb_false.
  - exists times. repeat split; trivial.
    now apply (schedule_times_nonempty b stub).
Qed.

Lemma increasing_from_nth (times : list Q) :
  forall t_prev i, increasing_from t_prev times -> (i < length times)%nat ->
  match i with O => t_prev | S i' => nth i' times 0 end < nth i times 0.
Proof.
  induction times as [|t0 times IH]; intros t_prev i Hinc Hi; [simpl in Hi; lia|].
  destruct Hinc as [Hlt Hinc]. destruct i as [|i]; [exact Hlt|].
  simpl in Hi. specialize (IH t0 i Hinc ltac:(lia)).
  destruct i; exact IH.
Qed.

(** X9. Every schedule that [cashflows] returns is non-empty and
    comes from a bond that passes the checks; its rows are numbered
    [1, 2, ...], each accrual is positive and is the time of the row minus
    the time of the row before (0 for the first), so the times increase
    strictly from above 0; each coupon is [fv * coupon_rate * accrual] and
    each cash flow is the coupon or the coupon plus the face value. *)
Theorem cashflows_invariants (b : BondSpec) (stub : bool) (rows : list Row)
    (H : cashflows b stub = Ok rows) :
  valid_bond b /\ rows <> [] /\
  forall i, (i < length rows)%nat ->
    let r := nth i rows row0 in
    k r = Z.of_nat (S i) /\
    0 < accrual r /\
    accrual r = t r - prev_time (map t rows) i /\
    coupon r = fv b * coupon_rate b * accrual r /\
    (cashflow r = coupon r \/ cashflow r = coupon r + fv b).
Proof.
  destruct (cashflows_inv b stub rows H) as (Hv & times & Ht & Hne & Hinc & ->).
  split; [exact Hv|]. split.
  { intro E. apply (f_equal (@length Row)) in E.
    rewrite rows_of_length in E. destruct times; [congruence | discriminate]. }
  rewrite rows_of_length, rows_of_times. intros i Hi.
  rewrite rows_of_nth by trivial. cbv zeta. cbn [k t accrual coupon cashflow].
  split; [lia|]. split.
  { pose proof (increasing_from_nth times 0 i Hinc Hi) as Hlt.
    destruct i; lra. }
  split; [reflexivity|]. split; [reflexivity|].
  unfold row_cashflow. destruct (Qltb _ tol10); [now right | now left].
Qed.

Lemma cashflows_invariants_witness :
  valid_bond bond_2_3 /\ rows_or_nil (cashflows bond_2_3 true) <> [].
Proof.
  destruct (cashflows_invariants bond_2_3 true
              (rows_or_nil (cashflows bond_2_3 true))) as (Hv & Hne & _).
  - vm_compute. reflexivity.
  - split; [exact Hv | exact Hne].
Defined.

Lemma row_cashflow_near (fv0 c T t0 dt : Q) :
  Qabs (t0 - T) <= tol12 -> row_cashflow fv0 c T t0 dt = fv0 * c * dt + fv0.
Proof.
  intro H. unfold row_cashflow.
  replace (Qltb (Qabs (t0 - T)) tol10) with true; [reflexivity|].
  symmetry. apply Qltb_true. unfold tol12, tol10 in *. lra.
Qed.

Lemma schedule_times_stub_end (b : BondSpec) (times : list Q) :
  schedule_times b true = Ok times ->
  Qabs (last times 0 - maturity b) <= tol12.
Proof.
  assert (Hend : forall l : list Q,
             Qabs (last (l ++ [maturity b]) 0 - maturity b) <= tol12).
  { intro l. rewrite last_last. apply Qabs_small; unfold tol12; lra. }
  unfold schedule_times. cbv iota. set (ft := full_times _ _).
  destruct (Qltb tol10 _); destruct ft as [|q l] eqn:E;
    try (intro H; injection H as <-; apply (Hend [])).
  - rewrite (getitem_last (q :: l) 0) by discriminate. cbn [bind].
    destruct (Qltb _ tol12) eqn:B; intro H; injection H as <-.
    + apply Qltb_true in B. now apply Qlt_le_weak.
    + apply (Hend (q :: l)).
  - rewrite (getitem_last (q :: l) 0) by discriminate. cbn [bind].
    destruct (Qltb tol12 _) eqn:B; intro H; injection H as <-.
    + apply (Hend (q :: l)).
    + now apply Qltb_false in B.
Qed.

(** X10. Every schedule that [cashflows] returns with stub ends within
    [1e-12] of the maturity, and its last row carries the face value on
    top of its coupon. *)
Theorem cashflows_stub_redemption (b : BondSpec) (rows : list Row)
    (H : cashflows b true = Ok rows) :
  Qabs (t (last rows row0) - maturity b) <= tol12 /\
  cashflow (last rows row0) = coupon (last rows row0) + fv b.
Proof.
  destruct (cashflows_inv b true rows H) as (Hv & times & Ht & Hne & Hinc & ->).
  pose proof (schedule_times_stub_end b times Ht) as Hend.
  assert (Hlen : (0 < length times)%nat) by (destruct times; [congruence|simpl; lia]).
  rewrite last_as_nth, rows_of_length.
  rewrite rows_of_nth by lia. cbv zeta. cbn [t cashflow coupon].
  rewrite <- last_as_nth. split; [exact Hend|].
  now apply row_cashflow_near.
Qed.

Lemma cashflows_stub_redemption_witness :
  Qabs (t (last (rows_or_nil (cashflows bond_2_3 true)) row0) - maturity bond_2_3)
    <= tol12 /\
  cashflow (last (rows_or_nil (cashflows bond_2_3 true)) row0) =
    coupon (last (rows_or_nil (cashflows bond_2_3 true)) row0) + fv bond_2_3.
Proof.
  apply (cashflows_stub_redemption bond_2_3). vm_compute. reflexivity.
Defined.

(** ** Pricing a schedule *)

Lemma mapM_inv {A B : Type} (f : A -> result B) (l : list A) :
  forall l', mapM f l = Ok l' -> Forall2 (fun a b => f a = Ok b) l l'.
Proof.
  induction l as [|a l IH]; intros l' H.
  - injection H as <-. constructor.
  - cbn [mapM] in H. destruct (f a) as [b|e] eqn:E; [|discriminate].
    cbn [bind] in H. destruct (mapM f l) as [bs|e] eqn:E'; [|discriminate].
    cbn [bind] in H. injection H as <-. constructor; auto.
Qed.

Lemma mapM_raise {A B : Type} (f : A -> result B) (l : list A) (e : exn) :
  mapM f l = Raise e -> exists a, In a l /\ f a = Raise e.
Proof.
  induction l as [|a l IH]; intro H; [discriminate|].
  cbn [mapM] in H. destruct (f a) as [b|e'] eqn:E.
  - cbn [bind] in H. destruct (mapM f l) as [bs|e''] eqn:E'; [discriminate|].
    cbn [bind] in H. injection H as ->.
    destruct (IH eq_refl) as (x & Hx & Hfx). exists x. split; [now right|trivial].
  - cbn [bind] in H. injection H as ->. exists a. split; [now left|trivial].
Qed.

Section PricingProps.

Variable fpow : Q -> Q -> option Q.

(** X11. When [price_from_curve] returns, the priced table has one row
    per row of the schedule, in the same order, each with the discount
    factor of the curve at the row's time and with
    [pv = cashflow * df]; when it raises, the error is the one that [df]
    raises at one of the row times. *)
Theorem price_from_curve_spec (cf : list Row) (curve : YieldCurve) :
  (forall cf_pv, price_from_curve fpow cf curve = Ok cf_pv ->
     map row cf_pv = cf /\
     forall r, In r cf_pv ->
       df fpow curve (t (row r)) = Ok (row_df r) /\
       pv r = cashflow (row r) * row_df r) /\
  (forall e, price_from_curve fpow cf curve = Raise e ->
     exists r, In r cf /\ df fpow curve (t r) = Raise e).
Proof.
  split.
  - intros cf_pv H. apply mapM_inv in H.
    induction H as [|a p l l' Hap _ IH]; [split; [reflexivity|contradiction]|].
    destruct IH as [IH1 IH2].
    destruct (df fpow curve (t a)) as [d|e] eqn:E; [|discriminate].
    cbn [bind] in Hap. injection Hap as <-. split.
    + cbn [map row]. now rewrite IH1.
    + intros r' [<-|Hin]; [cbn [row row_df pv]; now split | now apply IH2].
  - intros e H. apply mapM_raise in H. destruct H as (r & Hin & Hr).
    exists r. split; trivial.
    destruct (df fpow curve (t r)) as [d|e'] eqn:E; [discriminate|].
    cbn [bind] in Hr. congruence.
Qed.

End PricingProps.

Lemma price_from_curve_spec_witness :
  map row cf_5y_base = cf_5y.
Proof.
  destruct (proj1 (price_from_curve_spec Qpow_floor cf_5y curve3) cf_5y_base)
    as [E _]; [vm_compute; reflexivity | exact E].
Defined.

(** ** Duration measures *)

(** X12. For a yield with [m > 0], [modified_duration_flat] raises
    [ZeroDivisionError] exactly when [1 + j/m] is 0; otherwise it divides
    a number by [1 + j/m] and passes the not-a-number of a zero-price
    table through.  With [j >= 0] the modified duration of a non-negative
    Macaulay duration lies between 0 and that duration. *)
Theorem modified_duration_flat_spec (y : FlatYield) (Hm : (0 < fy_m y)%Z) :
  let a := 1 + j y / inject_Z (fy_m y) in
  (a == 0 -> forall x, modified_duration_flat x y =
                       Raise (ZeroDivisionError "float division by zero")) /\
  (~ a == 0 ->
   modified_duration_flat NaN y = Ok NaN /\
   forall d, modified_duration_flat (Fin d) y = Ok (Fin (d / a))) /\
  (0 <= j y -> forall d, 0 <= d ->
   modified_duration_flat (Fin d) y = Ok (Fin (d / a)) /\ 0 <= d / a <= d).
Proof.
  intro a. pose proof (inject_Z_pos _ Hm) as Him.
  assert (Hu : forall x, modified_duration_flat x y = pyfloat_div x a).
  { intro x. unfold modified_duration_flat. now rewrite pydiv_ok by lra. }
  assert (Hfin : ~ a == 0 -> forall d, modified_duration_flat (Fin d) y
                                       = Ok (Fin (d / a))).
  { intros Ha d. rewrite Hu. unfold pyfloat_div.
    now rewrite (proj2 (Qeq_bool_false _ _) Ha). }
  split; [|split].
  - intros Ha x. rewrite Hu. unfold pyfloat_div. now rewrite (Qeq_eq_bool _ _ Ha).
  - intro Ha. split; [|now apply Hfin].
    rewrite Hu. unfold pyfloat_div. now rewrite (proj2 (Qeq_bool_false _ _) Ha).
  - intros Hj d Hd.
    assert (Hq : 0 <= j y / inject_Z (fy_m y)).
    { apply Qle_shift_div_l; trivial; lra. }
    assert (Ha : 1 <= a) by (unfold a; lra).
    split; [apply Hfin; lra|]. split.
    + apply Qle_shift_div_l; lra.
    + apply Qle_shift_div_r; [lra|].
      assert (0 <= d * (a - 1)) by (apply Qmult_le_0_compat; lra).
      assert (E : d * (a - 1) == d * a - d) by ring. lra.
Qed.

Lemma modified_duration_flat_spec_witness :
  modified_duration_flat (Fin 4.5) (mkFlatYield 0.04 2)
  = Ok (Fin (4.5 / (1 + 0.04 / inject_Z 2))).
Proof.
  apply (proj2 (proj2 (modified_duration_flat_spec (mkFlatYield 0.04 2) eq_refl)));
    qconst.
Defined.

(** ** Scenarios *)

Section ScenarioProps.

Variable fpow : Q -> Q -> option Q.

(** X13. The base scenario is neutral: when the base curve prices the
    schedule to [P0] and [P0] is not 0, [add_scenario] on the base curve
    with a yield change of 0 appends one row whose price is [P0], whose
    percentage change is 0 and whose two estimates equal [P0] with errors
    0, whatever the duration and convexity are.  With [P0 = 0] it raises
    [ZeroDivisionError]. *)
Theorem add_scenario_base (cf : list Row) (curve : YieldCurve)
    (cf_base : list PRow) (D C : Q) (scenarios : list ScenarioRow)
    (name note0 : string)
    (Hb : price_from_curve fpow cf curve = Ok cf_base) :
  let P0 := price cf_base in
  (~ P0 == 0 ->
   exists r e,
     add_scenario fpow cf P0 D C scenarios name curve (Some 0) note0
       = Ok (scenarios ++ [r]) /\
     estimates r = Some e /\
     sc_price r = P0 /\ pct_chg_vs_base r == 0 /\
     est_price_dur e == P0 /\ est_price_durconv e == P0 /\
     err_dur e == 0 /\ err_durconv e == 0) /\
  (P0 == 0 ->
   add_scenario fpow cf P0 D C scenarios name curve (Some 0) note0
     = Raise (ZeroDivisionError "float division by zero")).
Proof.
  intro P0. unfold add_scenario. rewrite Hb. cbn [bind]. fold P0. split.
  - intro HP. rewrite pydiv_ok by trivial. cbn [bind].
    do 2 eexists. split; [reflexivity|].
    split; [reflexivity|]. split; [reflexivity|].
    cbn [pct_chg_vs_base est_price_dur est_price_durconv err_dur err_durconv].
    split; [field; trivial|].
    split; [field|]. split; [field|]. split; field.
  - intro HP. now rewrite pydiv_zero.
Qed.

End ScenarioProps.

Lemma add_scenario_base_witness :
  exists r e,
    add_scenario Qpow_floor cf_5y (price cf_5y_base) 4 20 [] "Base" curve3
      (Some 0) "" = Ok ([] ++ [r]) /\
    estimates r = Some e /\
    sc_price r = price cf_5y_base /\ pct_chg_vs_base r == 0 /\
    est_price_dur e == price cf_5y_base /\
    est_price_durconv e == price cf_5y_base /\
    err_dur e == 0 /\ err_durconv e == 0.
Proof.
  apply (proj1 (add_scenario_base Qpow_floor cf_5y curve3 cf_5y_base 4 20 []
                  "Base" "" ltac:(vm_compute; reflexivity))).
  qconst.
Defined.

(** ** The tolerance test of bond_check.py *)

Lemma pymax_spec (a b : Q) :
  (a <= pymax a b /\ b <= pymax a b) /\ (pymax a b == a \/ pymax a b == b).
Proof.
  unfold pymax. destruct (Qltb a b) eqn:E.
  - apply Qltb_true in E. split; [split; lra | now right].
  - apply Qltb_false in E. split; [split; lra | now left].
Qed.

Lemma pymax_comm (a b : Q) : pymax a b == pymax b a.
Proof.
  unfold pymax. destruct (Qltb a b) eqn:E1; destruct (Qltb b a) eqn:E2;
    try apply Qltb_true in E1; try apply Qltb_true in E2;
    try apply Qltb_false in E1; try apply Qltb_false in E2; lra.
Qed.

Lemma pymax_le (a b c : Q) : c <= pymax a b <-> c <= a \/ c <= b.
Proof.
  destruct (pymax_spec a b) as [[H1 H2] [E|E]]; split.
  - intro H. left. lra.
  - intros [H|H]; lra.
  - intro H. right. lra.
  - intros [H|H]; lra.
Qed.

(** X14. [close a b] holds whenever [|a - b|] is at most the absolute
    tolerance or at most the relative tolerance times the larger of
    [|a|] and [|b|]; it is symmetric in [a] and [b], and every number is
    close to itself when the absolute tolerance is not negative. *)
Theorem close_spec (a b rel abs_ : Q) :
  (Qabs (a - b) <= abs_ \/ Qabs (a - b) <= rel * pymax (Qabs a) (Qabs b) ->
   close a b rel abs_ = true) /\
  close a b rel abs_ = close b a rel abs_ /\
  (0 <= abs_ -> close a a rel abs_ = true).
Proof.
  assert (Hiff : forall x y,
             close x y rel abs_ = true <->
             Qabs (x - y) <= abs_ \/ Qabs (x - y) <= rel * pymax (Qabs x) (Qabs y)).
  { intros x y. unfold close. rewrite Qle_bool_iff. apply pymax_le. }
  split; [apply Hiff|]. split.
  - unfold close. rewrite (Qabs_Qminus a b).
    apply Qleb_comp; [reflexivity|].
    unfold pymax at 1 3.
    assert (E : rel * pymax (Qabs a) (Qabs b) == rel * pymax (Qabs b) (Qabs a))
      by now rewrite pymax_comm.
    destruct (Qltb abs_ (rel * pymax (Qabs a) (Qabs b))) eqn:B1;
      destruct (Qltb abs_ (rel * pymax (Qabs b) (Qabs a))) eqn:B2;
      try apply Qltb_true in B1; try apply Qltb_true in B2;
      try apply Qltb_false in B1; try apply Qltb_false in B2;
      trivial; try reflexivity; lra.
  - intro H0. apply Hiff. left.
    setoid_replace (a - a) with 0 by ring. exact H0.
Qed.

Lemma close_spec_witness :
  close 104.4912 104.4913 1e-9 1e-3 = true.
Proof.
  apply (proj1 (close_spec 104.4912 104.4913 1e-9 1e-3)). left. qconst.
Defined.

(** ** The curve reader *)

Section ExcelReaderProps.

Variable cell : Type.
Variable float_of : cell -> result Q.
Variable int_of : option cell -> result Z.

Lemma scan_rows_lengths (ws : nat -> option cell * option cell) (rows : list nat) :
  forall ps rs ps' rs',
  scan_rows float_of ws rows ps rs = Ok (ps', rs') ->
  length ps = length rs ->
  length ps' = length rs' /\ (length ps' <= length ps + length rows)%nat.
Proof.
  induction rows as [|r rows IH]; intros ps rs ps' rs' H Hlen.
  - injection H as <- <-. simpl. split; [trivial | lia].
  - cbn [scan_rows] in H. destruct (ws r) as [[tv|] [yv|]].
    + destruct (float_of tv) as [tq|e]; [|discriminate].
      destruct (float_of yv) as [yq|e]; [|discriminate].
      cbn [bind] in H. apply IH in H.
      * rewrite length_app in H. simpl in *. lia.
      * rewrite !length_app. simpl. lia.
    + apply IH in H; trivial. simpl. lia.
    + apply IH in H; trivial. simpl. lia.
    + injection H as <- <-. simpl. split; [trivial | lia].
Qed.

(** X15. [read_curve_xlsx] returns no curve when the curve sheet is
    missing, also when the base sheet is missing too, and raises
    [ValueError] when only the base sheet is missing.  A curve that it
    returns has passed the constructor and has at most 4998 pillars: the
    rows from 5000 on are never read. *)
Theorem read_curve_xlsx_spec (wb : Workbook cell) :
  (curve_sheet wb = None -> read_curve_xlsx float_of int_of wb = Ok None) /\
  (curve_sheet wb <> None -> base_B10 wb = None ->
   read_curve_xlsx float_of int_of wb = Raise (ValueError "Sheet not found")) /\
  (forall c, read_curve_xlsx float_of int_of wb = Ok (Some c) ->
     valid_curve c /\ (length (pillars c) <= 4998)%nat).
Proof.
  unfold read_curve_xlsx.
  assert (Hl : length (seq 2 4998) = 4998%nat) by apply length_seq.
  revert Hl. generalize (seq 2 4998). intros rows Hl.
  split; [|split].
  - now intros ->.
  - intros H1 ->. destruct (curve_sheet wb); [reflexivity | congruence].
  - intros c H.
    destruct (curve_sheet wb) as [ws|]; [|discriminate].
    destruct (base_B10 wb) as [b10|]; [|discriminate].
    destruct (int_of b10) as [m0|e]; [|discriminate]. cbn [bind] in H.
    destruct (scan_rows float_of ws rows [] []) as [[ps rs]|e] eqn:E;
      [|discriminate].
    cbn [bind fst snd] in H. destruct ps as [|p ps]; [discriminate|].
    unfold YieldCurve_new in H.
    destruct (post_init (mkYieldCurve (p :: ps) rs m0)) as [[]|e] eqn:Ev;
      [|discriminate].
    cbn [bind] in H. injection H as <-. split; [exact Ev|].
    apply scan_rows_lengths in E; [|reflexivity].
    rewrite Hl in E. cbn [pillars length] in *. lia.
Qed.

Lemma scan_rows_agree (ws ws' : nat -> option cell * option cell) (r0 : nat) :
  (forall r, (r <= r0)%nat -> ws' r = ws r) ->
  ws r0 = (None, None) ->
  forall n a ps rs, (a <= r0)%nat ->
  scan_rows float_of ws' (seq a n) ps rs = scan_rows float_of ws (seq a n) ps rs.
Proof.
  intros Hag Hblank. induction n as [|n IH]; intros a ps rs Ha; [reflexivity|].
  cbn [seq scan_rows]. rewrite (Hag a Ha).
  destruct (Nat.eq_dec a r0) as [->|Hne].
  - now rewrite Hblank.
  - destruct (ws a) as [[tv|] [yv|]]; trivial; try (apply IH; lia).
    destruct (float_of tv); trivial. destruct (float_of yv); trivial.
    cbn [bind]. apply IH. lia.
Qed.

(** X16. Reading stops at the first row of the curve sheet whose two
    cells are both empty: two workbooks whose curve sheets agree down to
    such a row, and whose cells B10 agree, give the same result, whatever
    the rows below hold. *)
Theorem read_curve_xlsx_stops (ws ws' : nat -> option cell * option cell)
    (b10 : option (option cell)) (r0 : nat)
    (Hr0 : (2 <= r0)%nat)
    (Hag : forall r, (r <= r0)%nat -> ws' r = ws r)
    (Hblank : ws r0 = (None, None)) :
  read_curve_xlsx float_of int_of (mkWorkbook (Some ws') b10)
  = read_curve_xlsx float_of int_of (mkWorkbook (Some ws) b10).
Proof.
  unfold read_curve_xlsx. cbn [curve_sheet base_B10].
  destruct b10 as [b|]; [|reflexivity].
  destruct (int_of b); [|reflexivity]. cbn [bind].
  now rewrite (scan_rows_agree ws ws' r0 Hag Hblank).
Qed.

End ExcelReaderProps.

Lemma read_curve_xlsx_spec_witness :
  read_curve_xlsx (fun q => Ok q) int_of_Q (mkWorkbook None None) = Ok None.
Proof.
  apply (proj1 (read_curve_xlsx_spec Q (fun q => Ok q) int_of_Q
                  (mkWorkbook None None))).
  reflexivity.
Defined.

Lemma read_curve_xlsx_stops_witness :
  read_curve_xlsx (fun q => Ok q) int_of_Q (mkWorkbook (Some sheet_a) (Some (Some 2)))
  = read_curve_xlsx (fun q => Ok q) int_of_Q (mkWorkbook (Some sheet_b) (Some (Some 2))).
Proof.
  apply (read_curve_xlsx_stops Q (fun q => Ok q) int_of_Q sheet_b sheet_a
           (Some (Some 2)) 4).
  - lia.
  - intros r Hr. do 5 (destruct r as [|r]; [reflexivity|]). lia.
  - reflexivity.
Defined.

(** ** The curve methods on binary64 floats *)


Lemma b64_post_init_rates (c : B64.YieldCurve) (rs : list float) :
  B64.post_init c = Ok tt -> length rs = length (B64.rates c) ->
  B64.post_init (B64.mkYieldCurve (B64.pillars c) rs (B64.m c)) = Ok tt.
Proof.
  intros H Hrs. unfold B64.post_init in *. cbn [B64.pillars B64.rates B64.m].
  destruct (length (B64.pillars c) =? length (B64.rates c))%nat eqn:E1;
    [|discriminate].
  apply Nat.eqb_eq in E1.
  replace (length (B64.pillars c) =? length rs)%nat with true
    by (symmetry; apply Nat.eqb_eq; congruence).
  exact H.
Qed.

(** X17. On binary64 floats, bit for bit: on a curve that the
    constructor accepts, [bump_parallel bp] returns the curve with the
    same pillars and compounding whose rates are the float sums
    [r + bp/10000], and bumping that curve by [-bp] returns the curve
    with the same pillars and compounding whose rates are the float sums
    [(r + bp/10000) + (-bp)/10000]. *)
Theorem bump_parallel_b64 (c : B64.YieldCurve) (bp : float)
    (Hv : B64.post_init c = Ok tt) :
  let c1 := B64.mkYieldCurve (B64.pillars c)
              (map (fun r => r + bp / 10000)%float (B64.rates c)) (B64.m c) in
  B64.bump_parallel c bp = Ok c1 /\
  B64.bump_parallel c1 (- bp) =
  Ok (B64.mkYieldCurve (B64.pillars c)
        (map (fun r => r + bp / 10000 + - bp / 10000)%float (B64.rates c))
        (B64.m c)).
Proof.
  intro c1.
  assert (Hv1 : B64.post_init c1 = Ok tt)
    by (apply b64_post_init_rates; [exact Hv | apply length_map]).
  split.
  - unfold B64.bump_parallel, B64.YieldCurve_new. fold c1. now rewrite Hv1.
  - unfold B64.bump_parallel, B64.YieldCurve_new.
    cbn [B64.pillars B64.rates B64.m c1]. rewrite map_map.
    rewrite (b64_post_init_rates c); [reflexivity | exact Hv | apply length_map].
Qed.

Lemma bump_parallel_b64_witness :
  B64.bump_parallel B64.curve3 50 =
  Ok (B64.mkYieldCurve [1; 2; 5]%float
        (map (fun r => r + 50 / 10000)%float [0.01; 0.02; 0.05]%float) 2).
Proof.
  exact (proj1 (bump_parallel_b64 B64.curve3 50 eq_refl)).
Defined.




(** ** The schedule on binary64 floats *)

Lemma b64_build_rows_inv (fv0 c T : float) (times : list float) :
  forall i t_prev rows,
  B64.build_rows fv0 c T i t_prev times = Ok rows ->
  length rows = length times /\
  forall n, (n < length rows)%nat ->
    let r := nth n rows B64.row0 in
    let tp := match n with
              | O => t_prev
              | S n' => B64.t (nth n' rows B64.row0)
              end in
    B64.k r = (i + Z.of_nat n)%Z /\
    B64.t r = nth n times 0%float /\
    B64.accrual r = (B64.t r - tp)%float /\
    (B64.accrual r <=? 0)%float = false /\
    B64.coupon r = (fv0 * c * B64.accrual r)%float /\
    (B64.cashflow r = B64.coupon r \/
     B64.cashflow r = (B64.coupon r + fv0)%float).
Proof.
  induction times as [|t0 times IH]; intros i t_prev rows H.
  - injection H as <-. split; [reflexivity|]. intros n Hn. simpl in Hn. lia.
  - cbn [B64.build_rows] in H.
    destruct (t0 - t_prev <=? 0)%float eqn:E; [discriminate|].
    destruct (B64.build_rows fv0 c T (i + 1) t0 times) as [rows'|e] eqn:E';
      [|discriminate].
    cbn [bind] in H. injection H as <-.
    destruct (IH _ _ _ E') as [Hlen Hrows].
    split; [simpl; now rewrite Hlen|].
    intros [|n] Hn.
    + cbn [nth B64.k B64.t B64.accrual B64.coupon B64.cashflow].
      rewrite Z.add_0_r. repeat split; trivial.
      destruct (abs (t0 - T) <? 1e-10)%float; [now right | now left].
    + simpl in Hn. specialize (Hrows n ltac:(lia)). cbv zeta in Hrows.
      destruct Hrows as (Hk & Ht & Ha & Hpos & Hc & Hcf).
      cbn [nth]. cbv zeta.
      split; [rewrite Hk; lia|]. split; [exact Ht|].
      split; [|split; [exact Hpos | split; [exact Hc | exact Hcf]]].
      rewrite Ha. destruct n; reflexivity.
Qed.

Lemma b64_schedule_times_nonempty (n_full : Z) (b : B64.BondSpec) (stub : bool)
    (times : list float) :
  B64.schedule_times n_full b stub = Ok times -> times <> [].
Proof.
  unfold B64.schedule_times. set (ft := B64.full_times _ _).
  assert (Happ : forall x, ft ++ [x] <> []) by (destruct ft; discriminate).
  destruct stub.
  - destruct (_ <? _)%float; destruct ft as [|q l] eqn:E;
      try (intro H; injection H as <-; apply Happ).
    + destruct (getitem _ (q :: l) (-1)); cbn [bind]; [|discriminate].
      destruct (_ <? _)%float; intro H; injection H as <-;
        [discriminate | apply Happ].
    + destruct (getitem _ (q :: l) (-1)); cbn [bind]; [|discriminate].
      destruct (_ <? _)%float; intro H; injection H as <-;
        [apply Happ | discriminate].
  - destruct ft as [|q l] eqn:E; [discriminate|].
    destruct (getitem _ (q :: l) (-1)); cbn [bind]; [|discriminate].
    destruct (_ <? _)%float; intro H; injection H as <-;
      [apply Happ | discriminate].
Qed.

(** X19. The invariants of a schedule hold of the binary64 run bit for
    bit: every schedule that [B64.cashflows] returns is non-empty and
    comes from a bond that passed the checks; its rows are numbered
    [1, 2, ...]; each accrual is the float difference of the time of the
    row and the time of the row before (0 for the first) and is not
    [<= 0]; each coupon is the float product [fv * coupon_rate * accrual]
    and each cash flow is the coupon or the float sum of the coupon and
    the face value. *)
Theorem cashflows_invariants_b64 (b : B64.BondSpec) (stub : bool)
    (rows : list B64.Row) (H : B64.cashflows b stub = Ok rows) :
  (B64.fv b <=? 0)%float = false /\ (B64.maturity b <=? 0)%float = false /\
  (0 < B64.coupon_freq b)%Z /\ (B64.coupon_rate b <? 0)%float = false /\
  rows <> [] /\
  forall n, (n < length rows)%nat ->
    let r := nth n rows B64.row0 in
    let tp := match n with
              | O => 0%float
              | S n' => B64.t (nth n' rows B64.row0)
              end in
    B64.k r = Z.of_nat (S n) /\
    B64.accrual r = (B64.t r - tp)%float /\
    (B64.accrual r <=? 0)%float = false /\
    B64.coupon r = (B64.fv b * B64.coupon_rate b * B64.accrual r)%float /\
    (B64.cashflow r = B64.coupon r \/
     B64.cashflow r = (B64.coupon r + B64.fv b)%float).
Proof.
  unfold B64.cashflows in H.
  destruct (B64.fv b <=? 0)%float eqn:E1; [discriminate|].
  destruct (B64.maturity b <=? 0)%float eqn:E2; [discriminate|].
  cbn [orb] in H.
  destruct (B64.coupon_freq b <=? 0)%Z eqn:E3; [discriminate|].
  destruct (B64.coupon_rate b <? 0)%float eqn:E4; [discriminate|].
  destruct (B64.floor _) as [n_full|e]; [|discriminate]. cbn [bind] in H.
  destruct (B64.schedule_times n_full b stub) as [times|e] eqn:E5;
    [|discriminate].
  cbn [bind] in H.
  destruct (b64_build_rows_inv _ _ _ _ _ _ _ H) as [Hlen Hrows].
  apply b64_schedule_times_nonempty in E5.
  repeat split; trivial.
  - now apply Z.leb_gt.
  - intro Hnil. subst rows. destruct times; [congruence | discriminate].
  - destruct (Hrows n H0) as (Hk & _). rewrite Hk. lia.
  - now destruct (Hrows n H0) as (_ & _ & Ha & _).
  - now destruct (Hrows n H0) as (_ & _ & _ & Hp & _).
  - now destruct (Hrows n H0) as (_ & _ & _ & _ & Hc & _).
  - now destruct (Hrows n H0) as (_ & _ & _ & _ & _ & Hcf).
Qed.

Lemma cashflows_invariants_b64_witness :
  match B64.cashflows B64.bond_2_3 true with
  | Ok rows => rows <> []
  | Raise _ => False
  end.
Proof.
  destruct (B64.cashflows B64.bond_2_3 true) as [rows|e] eqn:E.
  - exact (proj1 (proj2 (proj2 (proj2 (proj2
             (cashflows_invariants_b64 B64.bond_2_3 true rows E)))))).
  - vm_compute in E. discriminate.
Defined.

(** X20. On floats the number of full periods is the floor of the rounded
    sum [T * p + 1e-12].  For [maturity = 0.111111111111] and nine
    coupons a year the period count is below [1 - 1e-12], so the rational
    model counts no full period and raises [IndexError] without stub;
    the float sum rounds to [1.0] and the source returns one row, at
    [1/9], with the face value. *)
Lemma cashflows_ninth_rounding :
  valid_bond bond_ninth /\
  maturity bond_ninth * inject_Z (coupon_freq bond_ninth) + tol12 < 1 /\
  cashflows bond_ninth false = Raise (IndexError "list index out of range") /\
  B64.maturity B64.bond_ninth = SF2Prim (SpecFloat.S754_finite false 4003199668769771 (-55)) /\
  (B64.maturity B64.bond_ninth * 9 + 1e-12 =? 1)%float = true /\
  exists r,
    B64.cashflows B64.bond_ninth false = Ok [r] /\
    B64.t r = (1 / 9)%float /\
    B64.cashflow r = (B64.coupon r + 100)%float.
Proof.
  split; [valid_bond_tac|]. split; [reflexivity|].
  split; [vm_compute; reflexivity|]. split; [vm_compute; reflexivity|].
  split; [vm_compute; reflexivity|].
  eexists. split; [vm_compute; reflexivity|]. split; vm_compute; reflexivity.
Qed.

(** X21. With stub, [cashflows] can fail on a valid bond.  For
    [maturity = 1.999999999999] and one coupon a year the float sum
    [T * p + 1e-12] rounds to [2.0]: two full periods are counted, the
    grid gets the times [1.0], [2.0] and then the maturity, which lies
    before [2.0], and the row loop raises the [ValueError] of its grid
    check. *)
Lemma cashflows_stub_grid_error :
  (B64.fv B64.bond_near_2 <=? 0)%float = false /\
  (B64.maturity B64.bond_near_2 <=? 0)%float = false /\
  (B64.maturity B64.bond_near_2 <? 2)%float = true /\
  B64.floor (B64.maturity B64.bond_near_2 * 1 + 1e-12) = Ok 2%Z /\
  B64.cashflows B64.bond_near_2 true =
    Raise (ValueError "Non-increasing time grid generated").
Proof. repeat split; vm_compute; reflexivity. Qed.
